(** * supabase-relay: the relay proxy of [relay.py]

    A shallow embedding of the request handlers of [relay.py] and the
    properties of the forwarding proxy.

    The handlers are ordinary Python functions over text, parsed JSON and an
    HTTP client.  Python strings are sequences of code points, bodies are
    sequences of bytes, a parsed JSON document is a tree, and a handler is a
    computation that may print, may call the upstream and may raise.  The
    libraries the handlers call ([json], [httpx], the web framework) and the
    network are the handler's environment: they are gathered in the record
    [World], over which every general statement is quantified.  A reference
    environment ([ref_world]) with an executable JSON codec is used to
    evaluate the handlers on concrete requests. *)

From Stdlib Require Import NArith ZArith List String Ascii Bool Lia.
From Stdlib Require Import DecimalString.
Import ListNotations.

Set Implicit Arguments.

(** ** Text and bytes *)

(** A Python [str]: a sequence of code points. *)
Definition str := list N.

(** A Python [bytes]: a sequence of octets. *)
Definition bytes := list N.

(** A literal of the program, character by character. *)
Definition lit (s : string) : str :=
  map N_of_ascii (list_ascii_of_string s).

(** A JSON text of the documentation or of a test, written with the
    apostrophe where the text has the double quote (code point 34). *)
Definition jlit (s : string) : str :=
  map (fun c => if N.eqb c 39 then 34%N else c) (lit s).

Definition str_eqb (a b : str) : bool :=
  if list_eq_dec N.eq_dec a b then true else false.

Fixpoint startswith (s prefix : str) : bool :=
  match prefix, s with
  | [], _ => true
  | p :: prefix', c :: s' => N.eqb p c && startswith s' prefix'
  | _ :: _, [] => false
  end.

(** [needle in haystack] on two strings: the substring test. *)
Fixpoint str_contains (needle haystack : str) : bool :=
  startswith haystack needle
  || match haystack with
     | [] => false
     | _ :: rest => str_contains needle rest
     end.

(** The value under [key] in a list of pairs, or [default]. *)
Fixpoint lookup (l : list (str * str)) (key default : str) : str :=
  match l with
  | [] => default
  | (k, v) :: rest => if str_eqb k key then v else lookup rest key default
  end.

(** Decimal and hexadecimal renderings used by messages and by the
    serializer. *)
Definition str_of_Z (z : Z) : str :=
  lit (NilZero.string_of_int (Z.to_int z)).

Definition str_of_N (n : N) : str := str_of_Z (Z.of_N n).

Definition hex_digit (n : N) : N :=
  if N.ltb n 10 then 48 + n else 87 + n.

Definition hex2 (n : N) : str :=
  [hex_digit (n / 16 mod 16); hex_digit (n mod 16)]%N.

Definition hex4 (n : N) : str :=
  [hex_digit (n / 4096 mod 16); hex_digit (n / 256 mod 16);
   hex_digit (n / 16 mod 16); hex_digit (n mod 16)]%N.

(** ** The UTF-8 codec

    [bytes.decode('utf-8')] in strict mode and [str.encode('utf-8')], in
    arithmetic form.  The decoder rejects stray continuation bytes, overlong
    forms, surrogates, code points above U+10FFFF and truncated sequences, and
    reports the span and the reason the interpreter puts in the message of
    [UnicodeDecodeError]. *)
Module UTF8.
Local Open Scope N_scope.

Inductive reason := InvalidStartByte | InvalidContinuationByte | UnexpectedEndOfData.

Record decode_error := DecodeError {
  err_start : N;      (* position of the first offending byte *)
  err_end : N;        (* position after the offending span *)
  err_byte : N;       (* the byte at [err_start] *)
  err_reason : reason
}.

Definition is_continuation (b : N) : bool := (0x80 <=? b) && (b <=? 0xBF).

(** The second byte of a three-byte form is out of range for its lead:
    overlong under [0xE0], a surrogate under [0xED]. *)
Definition bad_second3 (b0 b1 : N) : bool :=
  negb (is_continuation b1) || (if b1 <? 0xA0 then b0 =? 0xE0 else b0 =? 0xED).

(** The same for a four-byte form: overlong under [0xF0], above U+10FFFF
    under [0xF4]. *)
Definition bad_second4 (b0 b1 : N) : bool :=
  negb (is_continuation b1) || (if b1 <? 0x90 then b0 =? 0xF0 else b0 =? 0xF4).

Definition push (c : N) (r : decode_error + str) : decode_error + str :=
  match r with
  | inl e => inl e
  | inr s => inr (c :: s)
  end.

(** [decode_from pos bs]: decode [bs], whose first byte is at position [pos]
    of the whole input. *)
Fixpoint decode_from (pos : N) (bs : bytes) : decode_error + str :=
  let fail len why b0 : decode_error + str :=
    inl (DecodeError pos (pos + len) b0 why) in
  let truncated b0 := fail (N.of_nat (List.length bs)) UnexpectedEndOfData b0 in
  match bs with
  | [] => inr []
  | b0 :: r0 =>
    if b0 <? 0x80 then push b0 (decode_from (pos + 1) r0)
    else if b0 <? 0xC2 then fail 1 InvalidStartByte b0
    else if b0 <? 0xE0 then
      match r0 with
      | [] => truncated b0
      | b1 :: r1 =>
        if negb (is_continuation b1) then fail 1 InvalidContinuationByte b0
        else push ((b0 - 0xC0) * 64 + (b1 - 0x80)) (decode_from (pos + 2) r1)
      end
    else if b0 <? 0xF0 then
      match r0 with
      | [] => truncated b0
      | b1 :: r1 =>
        if bad_second3 b0 b1 then fail 1 InvalidContinuationByte b0
        else
          match r1 with
          | [] => truncated b0
          | b2 :: r2 =>
            if negb (is_continuation b2) then fail 2 InvalidContinuationByte b0
            else push ((b0 - 0xE0) * 4096 + (b1 - 0x80) * 64 + (b2 - 0x80))
                      (decode_from (pos + 3) r2)
          end
      end
    else if b0 <? 0xF5 then
      match r0 with
      | [] => truncated b0
      | b1 :: r1 =>
        if bad_second4 b0 b1 then fail 1 InvalidContinuationByte b0
        else
          match r1 with
          | [] => truncated b0
          | b2 :: r2 =>
            if negb (is_continuation b2) then fail 2 InvalidContinuationByte b0
            else
              match r2 with
              | [] => truncated b0
              | b3 :: r3 =>
                if negb (is_continuation b3) then fail 3 InvalidContinuationByte b0
                else push ((b0 - 0xF0) * 262144 + (b1 - 0x80) * 4096
                           + (b2 - 0x80) * 64 + (b3 - 0x80))
                          (decode_from (pos + 4) r3)
              end
          end
      end
    else fail 1 InvalidStartByte b0
  end.

Definition decode (bs : bytes) : decode_error + str := decode_from 0 bs.

(** The bytes of one code point; none for a surrogate or a value above
    U+10FFFF. *)
Definition encode_char (c : N) : option bytes :=
  if c <? 0x80 then Some [c]
  else if c <? 0x800 then Some [0xC0 + c / 64; 0x80 + c mod 64]
  else if c <? 0x10000 then
    if (0xD800 <=? c) && (c <? 0xE000) then None
    else Some [0xE0 + c / 4096; 0x80 + c / 64 mod 64; 0x80 + c mod 64]
  else if c <? 0x110000 then
    Some [0xF0 + c / 262144; 0x80 + c / 4096 mod 64; 0x80 + c / 64 mod 64;
          0x80 + c mod 64]
  else None.

Fixpoint encode (s : str) : option bytes :=
  match s with
  | [] => Some []
  | c :: s' =>
    match encode_char c, encode s' with
    | Some bs, Some rest => Some (bs ++ rest)
    | _, _ => None
    end
  end.

Definition reason_text (r : reason) : str :=
  match r with
  | InvalidStartByte => lit "invalid start byte"
  | InvalidContinuationByte => lit "invalid continuation byte"
  | UnexpectedEndOfData => lit "unexpected end of data"
  end.

(** [str(e)] of the [UnicodeDecodeError] the decoder raises. *)
Definition error_text (e : decode_error) : str :=
  if err_end e =? err_start e + 1 then
    lit "'utf-8' codec can't decode byte 0x" ++ hex2 (err_byte e)
    ++ lit " in position " ++ str_of_N (err_start e) ++ lit ": "
    ++ reason_text (err_reason e)
  else
    lit "'utf-8' codec can't decode bytes in position " ++ str_of_N (err_start e)
    ++ lit "-" ++ str_of_N (err_end e - 1) ++ lit ": "
    ++ reason_text (err_reason e).

(** What the encoder reports when a text cannot be encoded: the span of the
    surrogates it stopped at and the first of them. *)
Record encode_error := EncodeError {
  enc_start : N;
  enc_end : N;
  enc_char : N
}.

Definition is_surrogate (c : N) : bool := (0xD800 <=? c) && (c <=? 0xDFFF).

(** The end of the run of surrogates at the head of [s], [s] starting at
    position [pos]. *)
Fixpoint surrogates_end (pos : N) (s : str) : N :=
  match s with
  | [] => pos
  | c :: rest => if is_surrogate c then surrogates_end (pos + 1) rest else pos
  end.

(** The error of [str.encode('utf-8')] on [s], whose first code point is at
    position [pos] of the text encoded; none when [s] can be encoded. *)
Fixpoint encode_error_from (pos : N) (s : str) : option encode_error :=
  match s with
  | [] => None
  | c :: rest =>
    match encode_char c with
    | Some _ => encode_error_from (pos + 1) rest
    | None => Some (EncodeError pos (surrogates_end (pos + 1) rest) c)
    end
  end.

(** [str(e)] of the [UnicodeEncodeError] the encoder raises. *)
Definition encode_error_text (e : encode_error) : str :=
  if enc_end e =? enc_start e + 1 then
    lit "'utf-8' codec can't encode character '\u" ++ hex4 (enc_char e)
    ++ lit "' in position " ++ str_of_N (enc_start e)
    ++ lit ": surrogates not allowed"
  else
    lit "'utf-8' codec can't encode characters in position "
    ++ str_of_N (enc_start e) ++ lit "-" ++ str_of_N (enc_end e - 1)
    ++ lit ": surrogates not allowed".

End UTF8.

(** ** Python values

    The values [json.loads] builds and the handlers return.  A [dict] is its
    entries in insertion order; a [float] is identified by its [repr]. *)
#[local] Set Warnings "-register-all".
Inductive value :=
| VNone
| VBool (b : bool)
| VInt (z : Z)
| VFloat (repr : str)
| VStr (s : str)
| VList (items : list value)
| VDict (entries : list (str * value)).

Definition type_name (v : value) : str :=
  match v with
  | VNone => lit "NoneType"
  | VBool _ => lit "bool"
  | VInt _ => lit "int"
  | VFloat _ => lit "float"
  | VStr _ => lit "str"
  | VList _ => lit "list"
  | VDict _ => lit "dict"
  end.

Fixpoint dict_get (d : list (str * value)) (key : str) : option value :=
  match d with
  | [] => None
  | (k, v) :: rest => if str_eqb k key then Some v else dict_get rest key
  end.

(** [d[key] = v]: an existing key keeps its place. *)
Fixpoint dict_set (d : list (str * value)) (key : str) (v : value)
  : list (str * value) :=
  match d with
  | [] => [(key, v)]
  | (k, x) :: rest =>
    if str_eqb k key then (k, v) :: rest else (k, x) :: dict_set rest key v
  end.

(** Truth value of an object in a condition. *)
Definition truthy (v : value) : bool :=
  match v with
  | VNone => false
  | VBool b => b
  | VInt z => negb (Z.eqb z 0)
  | VFloat r => negb (str_eqb r (lit "0.0") || str_eqb r (lit "-0.0"))
  | VStr s => negb (str_eqb s [])
  | VList l => match l with [] => false | _ => true end
  | VDict d => match d with [] => false | _ => true end
  end.

(** [v == s] for a string [s]. *)
Definition eq_str (v : value) (s : str) : bool :=
  match v with
  | VStr s' => str_eqb s' s
  | _ => false
  end.

(** ** Exceptions *)

Inductive pyclass :=
| UnicodeDecodeError
| UnicodeEncodeError
| JSONDecodeError
| TypeError
| AttributeError
| KeyError
| OtherError (name : str).   (* any further subclass of [Exception], by name *)

(** An instance of [Exception]: its class and what [str(e)] gives. *)
Record exn := Exn { exn_class : pyclass; exn_str : str }.

Definition is_JSONDecodeError (e : exn) : bool :=
  match exn_class e with
  | JSONDecodeError => true
  | _ => false
  end.

(** [except Exception]: every exception of the model is an instance of
    [Exception] (the cancellation of the task and the other direct instances
    of [BaseException] are not modelled). *)
Definition is_Exception (e : exn) : bool := true.

(** [bytes.decode('utf-8')]. *)
Definition bytes_decode (b : bytes) : exn + str :=
  match UTF8.decode b with
  | inl e => inl (Exn UnicodeDecodeError (UTF8.error_text e))
  | inr s => inr s
  end.

(** [needle in v]. *)
Definition py_in (needle : str) (v : value) : exn + bool :=
  match v with
  | VDict d => inr (match dict_get d needle with Some _ => true | None => false end)
  | VList l => inr (existsb (fun x => eq_str x needle) l)
  | VStr s => inr (str_contains needle s)
  | _ => inl (Exn TypeError
                (lit "argument of type '" ++ type_name v ++ lit "' is not iterable"))
  end.

(** [v[key]] for a string [key]. *)
Definition py_getitem (v : value) (key : str) : exn + value :=
  match v with
  | VDict d =>
    match dict_get d key with
    | Some x => inr x
    | None => inl (Exn KeyError (lit "'" ++ key ++ lit "'"))
    end
  | VList _ =>
    inl (Exn TypeError (lit "list indices must be integers or slices, not str"))
  | VStr _ =>
    inl (Exn TypeError (lit "string indices must be integers, not 'str'"))
  | _ =>
    inl (Exn TypeError (lit "'" ++ type_name v ++ lit "' object is not subscriptable"))
  end.

(** [v.get(key, default)]: only a [dict] has the method. *)
Definition py_get (v : value) (key : str) (default : value) : exn + value :=
  match v with
  | VDict d =>
    inr (match dict_get d key with Some x => x | None => default end)
  | _ =>
    inl (Exn AttributeError
           (lit "'" ++ type_name v ++ lit "' object has no attribute 'get'"))
  end.

(** A call of [callee] with keyword arguments, against the parameters the
    callee declares. *)
Definition check_keywords (callee : str) (params keywords : list str)
  : exn + unit :=
  match find (fun k => negb (existsb (str_eqb k) params)) keywords with
  | Some k =>
    inl (Exn TypeError
           (callee ++ lit "() got an unexpected keyword argument '" ++ k ++ lit "'"))
  | None => inr tt
  end.

(** ** The HTTP client and the web framework *)

(** What [httpx] sends and gets back. *)
Module httpx.

(** A pair given as [auth=] is sent as HTTP Basic authentication. *)
Inductive Auth := BasicAuth (username password : str).

Record Request := {
  method : str;
  url : str;
  content : str;
  headers : list (str * str);
  auth : Auth;
  timeout : Z
}.

(** A response: its status, the outcome of [response.json()] and
    [response.text]. *)
Record Response := {
  status_code : Z;
  json : exn + value;
  text : str
}.

(** The bytes of the body on the wire: a [str] given as [content=] is
    encoded as UTF-8. *)
Definition wire_body (r : Request) : option bytes := UTF8.encode (content r).

End httpx.

(** What the handlers get from and give to the framework. *)
Module starlette.

(** The inbound request: header names in lower case, and the body. *)
Record Request := {
  headers : list (str * str);
  body : bytes
}.

(** [request.headers.get(name, default)]. *)
Definition headers_get (r : Request) (name default : str) : str :=
  lookup (headers r) name default.

Inductive Content :=
| NoContent
| Text (s : str)
| Json (v : value).

Record Response := {
  status_code : Z;
  media_type : option str;
  response_headers : list (str * str);
  content : Content
}.

(** The keywords [JSONResponse.__init__] declares, from the framework's
    own declaration of the class. *)
Definition JSONResponse_params : list str :=
  [lit "content"; lit "status_code"; lit "headers"; lit "media_type";
   lit "background"].

(** [JSONResponse] called with [keywords], [content] and [headers] among
    them. *)
Definition JSONResponse (keywords : list str) (content : value)
           (headers : list (str * str)) : exn + Response :=
  match check_keywords (lit "JSONResponse.__init__") JSONResponse_params keywords with
  | inl e => inl e
  | inr _ =>
    inr {| status_code := 200;
           media_type := Some (lit "application/json");
           response_headers := headers;
           content := Json content |}
  end.

(** What a handler returns: a value the framework serializes, or a
    response. *)
Inductive Returned :=
| Value (v : value)
| Resp (r : Response).

End starlette.

(** The environment of the handlers: the process environment read at
    start-up, the [json] library, the HTTP client with the upstream behind it,
    and the schema the framework generates from the routes. *)
Record World := {
  environ : list (str * str);
  json_loads : str -> exn + value;
  json_dumps : option nat -> value -> str;       (* [indent], then the object *)
  client_request : httpx.Request -> exn + httpx.Response;
  app_openapi : value
}.

(** ** Handlers as computations

    A computation prints lines and calls the upstream, in order, and ends
    with a value or with an exception. *)

(** The lines the proxy prints, by their parts. *)
Inductive line :=
| ReceivedRequest (endpoint : str)
| RequestBody (body_str : str)
| NameMismatch (function_name : value) (endpoint : str)
| Forwarding (forward_body : str)
| NoFunctionCall
| InvalidJson
| ServerResponse (response_json : value)
| ServerResponseNotJson (response_text : str)
| ErrorInProxy (error_msg : str).

Inductive event :=
| Print (l : line)
| Post (r : httpx.Request).

Definition M (A : Type) : Type := (list event * (exn + A))%type.

Definition ret {A} (a : A) : M A := ([], inr a).

Definition lift {A} (r : exn + A) : M A := ([], r).

Definition bind {A B} (m : M A) (k : A -> M B) : M B :=
  match m with
  | (t, inl e) => (t, inl e)
  | (t, inr a) => let (t', r) := k a in (t ++ t', r)
  end.

(** [try: m except <catches> as e: handler e]. *)
Definition try_except {A} (m : M A) (catches : exn -> bool)
           (handler : exn -> M A) : M A :=
  match m with
  | (t, inl e) =>
    if catches e then let (t', r) := handler e in (t ++ t', r) else (t, inl e)
  | (t, inr a) => (t, inr a)
  end.

(** What [str(v)] writes into a formatted line as it is: a [str] is written
    code point for code point; of any other value the text written is a
    [repr], which escapes every code point that is not printable, the
    surrogates among them. *)
Definition written_raw (v : value) : str :=
  match v with
  | VStr s => s
  | _ => []
  end.

(** The part of a line that can hold a surrogate, and where it starts in the
    line.  A text parsed from JSON can hold one, through an escape: the name
    of an envelope and the upstream's JSON.  The other texts cannot: the
    endpoint is the path as the server decoded it and the upstream's text is
    decoded by the client, both with replacement; the inbound body is decoded
    strictly; [json.dumps] escapes every character that is not ASCII; the
    messages of the exceptions are ASCII. *)
Definition raw_part (l : line) : N * str :=
  match l with
  | NameMismatch function_name _ => (23%N, written_raw function_name)
  | ServerResponse response_json => (21%N, written_raw response_json)
  | _ => (0%N, [])
  end.

(** The exception [print] raises for a line: standard output is a UTF-8
    stream in strict mode, and a line that holds a surrogate cannot be
    written to it. *)
Definition stdout_error (l : line) : option exn :=
  match UTF8.encode_error_from (fst (raw_part l)) (snd (raw_part l)) with
  | Some e => Some (Exn UnicodeEncodeError (UTF8.encode_error_text e))
  | None => None
  end.

(** [print(line)]: the line is written whole or not at all. *)
Definition print (l : line) : M unit :=
  match stdout_error l with
  | Some e => ([], inl e)
  | None => ([Print l], inr tt)
  end.

Declare Scope py_scope.
Delimit Scope py_scope with py.
Notation "x <- m ;; k" := (bind m (fun x => k))
  (at level 61, m at next level, right associativity) : py_scope.
Notation "m ;; k" := (bind m (fun _ => k))
  (at level 61, right associativity) : py_scope.

(** The events of a run, and how it ended. *)
Definition events {A} (m : M A) : list event := fst m.
Definition outcome {A} (m : M A) : exn + A := snd m.

(** The outbound calls of a run, in order. *)
Fixpoint posts (t : list event) : list httpx.Request :=
  match t with
  | [] => []
  | Post r :: t' => r :: posts t'
  | Print _ :: t' => posts t'
  end.

Definition outbound {A} (m : M A) : list httpx.Request := posts (events m).

(** ** [relay.py]

    The handlers, statement by statement.  Reading the inbound body and
    opening and closing the HTTP client are taken to succeed; what can raise
    is decoding the body, the operations on the parsed document, the outbound
    call and [response.json()]. *)

Definition os_getenv (w : World) (key default : str) : str :=
  lookup (environ w) key default.

(** [UPSTREAM] and [AUTH], as the module leaves them after its second
    assignment to each. *)
Definition UPSTREAM (w : World) : str :=
  os_getenv w (lit "UPSTREAM_URL") (lit "http://localhost:8000/mcp").

Definition AUTH : str * str := (lit "instabids", lit "secure123password").

(** [await client.post(url, content=, headers=, auth=, timeout=)]. *)
Definition client_post (w : World) (url content : str)
           (headers : list (str * str)) (auth : str * str) (timeout : Z)
  : M httpx.Response :=
  let request :=
    {| httpx.method := lit "POST";
       httpx.url := url;
       httpx.content := content;
       httpx.headers := headers;
       httpx.auth := httpx.BasicAuth (fst auth) (snd auth);
       httpx.timeout := timeout |} in
  ([Post request], client_request w request).

Local Open Scope py_scope.

(** The inner [try] of [proxy]: the body to forward. *)
Definition forward_body_of (w : World) (endpoint body_str : str) : M str :=
  try_except
    (body_json <- lift (json_loads w body_str) ;;
     has_function_call <- lift (py_in (lit "function_call") body_json) ;;
     if has_function_call then
       function_call <- lift (py_getitem body_json (lit "function_call")) ;;
       function_name <- lift (py_get function_call (lit "name") VNone) ;;
       parameters <- lift (py_get function_call (lit "parameters") (VDict [])) ;;
       (if truthy function_name && negb (eq_str function_name endpoint)
        then print (NameMismatch function_name endpoint)
        else ret tt) ;;
       let forward_body := json_dumps w None parameters in
       print (Forwarding forward_body) ;;
       ret forward_body
     else
       print NoFunctionCall ;;
       ret body_str)
    is_JSONDecodeError
    (fun _ =>
       print InvalidJson ;;
       ret body_str).

(** What [proxy] makes of the upstream's response. *)
Definition relay_response (response : httpx.Response) : M value :=
  let response_status := httpx.status_code response in
  try_except
    (response_json <- lift (httpx.json response) ;;
     print (ServerResponse response_json) ;;
     ret response_json)
    is_JSONDecodeError
    (fun _ =>
       let response_text := httpx.text response in
       print (ServerResponseNotJson response_text) ;;
       ret (VDict [(lit "response", VStr response_text);
                   (lit "status", VInt response_status);
                   (lit "error", VNone)])).

(** The body of the outer [try] of [proxy]. *)
Definition proxy_try (w : World) (endpoint : str) (request : starlette.Request)
  : M value :=
  let body_bytes := starlette.body request in
  body_str <- lift (bytes_decode body_bytes) ;;
  print (ReceivedRequest endpoint) ;;
  print (RequestBody body_str) ;;
  forward_body <- forward_body_of w endpoint body_str ;;
  response <- client_post w (UPSTREAM w ++ lit "/" ++ endpoint) forward_body
                [(lit "Content-Type", lit "application/json")] AUTH 30 ;;
  relay_response response.

(** The [except Exception as e] block of [proxy]. *)
Definition proxy_except (e : exn) : M value :=
  let error_msg := exn_str e in
  print (ErrorInProxy error_msg) ;;
  ret (VDict [(lit "error", VStr error_msg); (lit "status", VInt 500)]).

(** [POST /proxy/{endpoint:path}]. *)
Definition proxy (w : World) (endpoint : str) (request : starlette.Request)
  : M value :=
  try_except (proxy_try w endpoint request) is_Exception proxy_except.

(** [GET /health]. *)
Definition health_check (request : starlette.Request) : M starlette.Returned :=
  let accept_header :=
    starlette.headers_get request (lit "accept") [] in
  if str_contains (lit "application/health") accept_header then
    ret (starlette.Resp
           {| starlette.status_code := 204;
              starlette.media_type := Some (lit "application/health+json");
              starlette.response_headers := [];
              starlette.content := starlette.NoContent |})
  else
    ret (starlette.Value (VDict [(lit "ok", VBool true)])).

(** [GET /openapi.json]. *)
Definition get_openapi_schema (w : World) (request : starlette.Request)
  : M starlette.Returned :=
  let schema := app_openapi w in
  let accept_header :=
    starlette.headers_get request (lit "accept") [] in
  if str_contains (lit "text/") accept_header then
    ret (starlette.Resp
           {| starlette.status_code := 200;
              starlette.media_type := Some (lit "text/plain; charset=utf-8");
              starlette.response_headers := [];
              starlette.content := starlette.Text (json_dumps w (Some 2%nat) schema) |})
  else
    response <- lift (starlette.JSONResponse
                        [lit "content"; lit "headers"; lit "gzip"]
                        schema
                        [(lit "Content-Type", lit "application/json")]) ;;
    ret (starlette.Resp response).

Local Close Scope py_scope.

(** ** A reference [json] codec

    An executable decoder and encoder for the environment in which the
    handlers are evaluated on concrete requests.  They follow [json.loads]
    and [json.dumps] with their default options (strict strings, [NaN] and
    the infinities accepted, [ensure_ascii]) on documents without fractions
    or exponents, nested less deep than the interpreter's recursion limit and
    with integers of at most 4300 digits.  Outside this domain they differ
    from the library: a number written with a fraction or an exponent is kept
    as written, where the library keeps the nearest double, and a document
    too deep or an integer too long is decoded, where the library raises
    [RecursionError] or [ValueError].  The message of a decoding error is not
    reproduced (no handler reads it).  The general statements do not depend
    on this codec: they are about any [json_loads] and [json_dumps]. *)
Module RefJson.
Local Open Scope N_scope.

Definition is_ws (c : N) : bool :=
  (c =? 32) || (c =? 9) || (c =? 10) || (c =? 13).

Fixpoint skip_ws (s : str) : str :=
  match s with
  | [] => []
  | c :: r => if is_ws c then skip_ws r else s
  end.

Definition is_digit (c : N) : bool := (48 <=? c) && (c <=? 57).

Fixpoint span_digits (s : str) : str * str :=
  match s with
  | [] => ([], [])
  | c :: r =>
    if is_digit c then let (d, rest) := span_digits r in (c :: d, rest)
    else ([], s)
  end.

Definition digits_value (d : str) : Z :=
  fold_left (fun acc c => (acc * 10 + Z.of_N (c - 48)%N)%Z) d 0%Z.

(** A number: an optional minus, an integer part without leading zeros, an
    optional fraction and an optional exponent; the longest match. *)
Definition scan_number (s : str) : option (value * str) :=
  let (sign, s1) :=
    match s with
    | c :: r => if c =? 45 then ([c], r) else ([], s)
    | [] => ([], s)
    end in
  let int_part :=
    match s1 with
    | [] => None
    | c :: r =>
      if c =? 48 then Some ([c], r)
      else if is_digit c then let (d, rest) := span_digits r in Some (c :: d, rest)
      else None
    end in
  match int_part with
  | None => None
  | Some (ds, r1) =>
    let (frac, r2) :=
      match r1 with
      | p :: q =>
        if p =? 46 then
          match span_digits q with
          | ([], _) => ([], r1)
          | (fd, rest) => (p :: fd, rest)
          end
        else ([], r1)
      | [] => ([], r1)
      end in
    let (exp, r3) :=
      match r2 with
      | e :: q =>
        if (e =? 101) || (e =? 69) then
          let (sg, q') :=
            match q with
            | c :: q2 => if (c =? 45) || (c =? 43) then ([c], q2) else ([], q)
            | [] => ([], q)
            end in
          match span_digits q' with
          | ([], _) => ([], r2)
          | (ed, rest) => (e :: sg ++ ed, rest)
          end
        else ([], r2)
      | [] => ([], r2)
      end in
    match frac, exp with
    | [], [] =>
      let n := digits_value ds in
      Some (VInt (match sign with [] => n | _ => - n end)%Z, r3)
    | _, _ => Some (VFloat (sign ++ ds ++ frac ++ exp), r3)
    end
  end.

Definition hex_val (c : N) : option N :=
  if is_digit c then Some (c - 48)
  else if (97 <=? c) && (c <=? 102) then Some (c - 87)
  else if (65 <=? c) && (c <=? 70) then Some (c - 55)
  else None.

Definition hex4_val (s : str) : option (N * str) :=
  match s with
  | a :: b :: c :: d :: r =>
    match hex_val a, hex_val b, hex_val c, hex_val d with
    | Some a, Some b, Some c, Some d => Some (a * 4096 + b * 256 + c * 16 + d, r)
    | _, _, _, _ => None
    end
  | _ => None
  end.

Definition escape_value (c : N) : option N :=
  if (c =? 34) || (c =? 92) || (c =? 47) then Some c
  else if c =? 98 then Some 8
  else if c =? 102 then Some 12
  else if c =? 110 then Some 10
  else if c =? 114 then Some 13
  else if c =? 116 then Some 9
  else None.

Definition cons_char (c : N) (r : option (str * str)) : option (str * str) :=
  match r with
  | Some (x, rest) => Some (c :: x, rest)
  | None => None
  end.

(** The text of a string after its opening quote, and what follows its
    closing quote. *)
Fixpoint scan_string (fuel : nat) (s : str) : option (str * str) :=
  match fuel, s with
  | O, _ | _, [] => None
  | S n, c :: r =>
    if c =? 34 then Some ([], r)
    else if c <? 32 then None
    else if c =? 92 then
      match r with
      | [] => None
      | e :: r1 =>
        if e =? 117 then
          match hex4_val r1 with
          | None => None
          | Some (u, r2) =>
            let single := cons_char u (scan_string n r2) in
            if (0xD800 <=? u) && (u <=? 0xDBFF) then
              match r2 with
              | b :: v :: r3 =>
                if (b =? 92) && (v =? 117) then
                  match hex4_val r3 with
                  | None => None
                  | Some (u2, r4) =>
                    if (0xDC00 <=? u2) && (u2 <=? 0xDFFF) then
                      cons_char (0x10000 + (u - 0xD800) * 1024 + (u2 - 0xDC00))
                                (scan_string n r4)
                    else single
                  end
                else single
              | _ => single
              end
            else single
          end
        else
          match escape_value e with
          | Some x => cons_char x (scan_string n r1)
          | None => None
          end
      end
    else cons_char c (scan_string n r)
  end.

Definition after (prefix : str) (s : str) : option str :=
  if startswith s prefix then Some (skipn (List.length prefix) s) else None.

Definition scan_constant (s : str) : option (value * str) :=
  match after (lit "null") s, after (lit "true") s, after (lit "false") s with
  | Some r, _, _ => Some (VNone, r)
  | _, Some r, _ => Some (VBool true, r)
  | _, _, Some r => Some (VBool false, r)
  | _, _, _ =>
    match after (lit "NaN") s, after (lit "Infinity") s, after (lit "-Infinity") s with
    | Some r, _, _ => Some (VFloat (lit "nan"), r)
    | _, Some r, _ => Some (VFloat (lit "inf"), r)
    | _, _, Some r => Some (VFloat (lit "-inf"), r)
    | _, _, _ => None
    end
  end.

(** One value at the head of [s], and what follows it. *)
Fixpoint scan_once (fuel : nat) (s : str) : option (value * str) :=
  match fuel, s with
  | O, _ | _, [] => None
  | S n, c :: r =>
    if c =? 34 then
      match scan_string (S (List.length r)) r with
      | Some (x, rest) => Some (VStr x, rest)
      | None => None
      end
    else if c =? 123 then
      match skip_ws r with
      | c1 :: r1 =>
        if c1 =? 125 then Some (VDict [], r1) else object_members n [] (c1 :: r1)
      | [] => None
      end
    else if c =? 91 then
      match skip_ws r with
      | c1 :: r1 =>
        if c1 =? 93 then Some (VList [], r1) else array_items n [] (c1 :: r1)
      | [] => None
      end
    else
      match scan_constant s with
      | Some found => Some found
      | None => scan_number s
      end
  end

(** The members of an object from the quote of a key on. *)
with object_members (fuel : nat) (acc : list (str * value)) (s : str)
  : option (value * str) :=
  match fuel, s with
  | O, _ | _, [] => None
  | S n, c :: r =>
    if c =? 34 then
      match scan_string (S (List.length r)) r with
      | None => None
      | Some (key, r1) =>
        match skip_ws r1 with
        | c2 :: r2 =>
          if c2 =? 58 then
            match scan_once n (skip_ws r2) with
            | None => None
            | Some (v, r3) =>
              let acc' := dict_set acc key v in
              match skip_ws r3 with
              | c4 :: r4 =>
                if c4 =? 125 then Some (VDict acc', r4)
                else if c4 =? 44 then object_members n acc' (skip_ws r4)
                else None
              | [] => None
              end
            end
          else None
        | [] => None
        end
      end
    else None
  end

(** The items of an array from its first item on. *)
with array_items (fuel : nat) (acc : list value) (s : str)
  : option (value * str) :=
  match fuel with
  | O => None
  | S n =>
    match scan_once n s with
    | None => None
    | Some (v, r1) =>
      match skip_ws r1 with
      | c2 :: r2 =>
        if c2 =? 93 then Some (VList (acc ++ [v]), r2)
        else if c2 =? 44 then array_items n (acc ++ [v]) (skip_ws r2)
        else None
      | [] => None
      end
    end
  end.

Definition decode_error : exn := Exn JSONDecodeError (lit "JSONDecodeError").

(** [json.loads(s)] for a [str]. *)
Definition loads (s : str) : exn + value :=
  if startswith s [0xFEFF] then inl decode_error
  else
    match scan_once (2 * List.length s + 2) (skip_ws s) with
    | Some (v, rest) =>
      match skip_ws rest with
      | [] => inr v
      | _ :: _ => inl decode_error
      end
    | None => inl decode_error
    end.

Definition escape_char (c : N) : str :=
  if c =? 34 then [92; 34]
  else if c =? 92 then [92; 92]
  else if c =? 10 then [92; 110]
  else if c =? 13 then [92; 114]
  else if c =? 9 then [92; 116]
  else if c =? 8 then [92; 98]
  else if c =? 12 then [92; 102]
  else if (32 <=? c) && (c <=? 126) then [c]
  else if c <? 0x10000 then [92; 117] ++ hex4 c
  else
    let v := c - 0x10000 in
    [92; 117] ++ hex4 (0xD800 + v / 1024) ++ [92; 117] ++ hex4 (0xDC00 + v mod 1024).

Definition quote (s : str) : str := [34] ++ flat_map escape_char s ++ [34].

Definition float_text (r : str) : str :=
  if str_eqb r (lit "nan") then lit "NaN"
  else if str_eqb r (lit "inf") then lit "Infinity"
  else if str_eqb r (lit "-inf") then lit "-Infinity"
  else r.

(** [json.dumps(v, indent=indent)], [level] containers deep. *)
Fixpoint dumps_at (indent : option nat) (level : nat) (v : value) : str :=
  let newline (lvl : nat) : str :=
    match indent with
    | None => []
    | Some k => 10 :: repeat 32 (k * lvl)%nat
    end in
  let separator : str :=
    match indent with
    | None => lit ", "
    | Some _ => lit "," ++ newline (S level)
    end in
  match v with
  | VNone => lit "null"
  | VBool true => lit "true"
  | VBool false => lit "false"
  | VInt z => str_of_Z z
  | VFloat r => float_text r
  | VStr s => quote s
  | VList [] => lit "[]"
  | VList items =>
    lit "[" ++ newline (S level)
    ++ (fix join (l : list value) : str :=
          match l with
          | [] => []
          | [x] => dumps_at indent (S level) x
          | x :: rest => dumps_at indent (S level) x ++ separator ++ join rest
          end) items
    ++ newline level ++ lit "]"
  | VDict [] => lit "{}"
  | VDict entries =>
    lit "{" ++ newline (S level)
    ++ (fix join (l : list (str * value)) : str :=
          match l with
          | [] => []
          | [(k, x)] => quote k ++ lit ": " ++ dumps_at indent (S level) x
          | (k, x) :: rest =>
            quote k ++ lit ": " ++ dumps_at indent (S level) x ++ separator
            ++ join rest
          end) entries
    ++ newline level ++ lit "}"
  end.

Definition dumps (indent : option nat) (v : value) : str := dumps_at indent 0 v.

End RefJson.

(** A response of the upstream with the text [text] as its body. *)
Definition text_response (status : Z) (text : str) : httpx.Response :=
  {| httpx.status_code := status;
     httpx.json := RefJson.loads text;
     httpx.text := text |}.

(** The reference environment: the reference codec, no variable set in the
    process environment, and [upstream] behind the HTTP client. *)
Definition ref_world (upstream : httpx.Request -> exn + httpx.Response) : World :=
  {| environ := [];
     json_loads := RefJson.loads;
     json_dumps := RefJson.dumps;
     client_request := upstream;
     app_openapi := VDict [(lit "openapi", VStr (lit "3.1.0"))] |}.

(** An upstream that answers every call with [status] and [text]. *)
Definition answering (status : Z) (text : str)
  : httpx.Request -> exn + httpx.Response :=
  fun _ => inr (text_response status text).

(** An upstream no call to which completes: the client raises [e]. *)
Definition failing (e : exn) : httpx.Request -> exn + httpx.Response :=
  fun _ => inl e.

(** An inbound [POST] with the text [text] as its body. *)
Definition post_of_text (text : str) : starlette.Request :=
  {| starlette.headers := [(lit "content-type", lit "application/json")];
     starlette.body := match UTF8.encode text with Some b => b | None => [] end |}.

Definition post_of_bytes (b : bytes) : starlette.Request :=
  {| starlette.headers := []; starlette.body := b |}.

(** ** Vocabulary of the statements *)

(** The call [proxy] makes to forward [payload] for [endpoint]. *)
Definition forwarded (w : World) (endpoint payload : str) : httpx.Request :=
  {| httpx.method := lit "POST";
     httpx.url := UPSTREAM w ++ lit "/" ++ endpoint;
     httpx.content := payload;
     httpx.headers := [(lit "Content-Type", lit "application/json")];
     httpx.auth := httpx.BasicAuth (lit "instabids") (lit "secure123password");
     httpx.timeout := 30 |}.

(** The [parameters] of an envelope, or the empty mapping. *)
Definition parameters_of (function_call : list (str * value)) : value :=
  match dict_get function_call (lit "parameters") with
  | Some p => p
  | None => VDict []
  end.

(** The line printed for the name of an envelope, if any. *)
Definition name_warning (function_call : list (str * value)) (endpoint : str)
  : list event :=
  let function_name :=
    match dict_get function_call (lit "name") with
    | Some n => n
    | None => VNone
    end in
  if truthy function_name && negb (eq_str function_name endpoint)
  then [Print (NameMismatch function_name endpoint)]
  else [].

(** What [proxy] does from the outbound call on. *)
Definition upstream_part (w : World) (call : httpx.Request) : M value :=
  try_except
    (bind (([Post call], client_request w call) : M httpx.Response) relay_response)
    is_Exception proxy_except.

(** The object returned when the upstream's body is not JSON. *)
Definition not_json_result (response : httpx.Response) : value :=
  VDict [(lit "response", VStr (httpx.text response));
         (lit "status", VInt (httpx.status_code response));
         (lit "error", VNone)].

(** The object returned for an exception. *)
Definition error_result (e : exn) : value :=
  VDict [(lit "error", VStr (exn_str e)); (lit "status", VInt 500)].

(** The JSON values that are no container: [null], the booleans and the
    numbers. *)
Definition is_scalar (v : value) : bool :=
  match v with
  | VNone | VBool _ | VInt _ | VFloat _ => true
  | VStr _ | VList _ | VDict _ => false
  end.

(** ** The application and its routes

    [FastAPI()] installs the routes of the framework when the application is
    created: the schema at [/openapi.json], then the documentation pages.  The
    decorators of the module add their routes after these, in the order of the
    file.  A request goes to the first route whose path and method both
    match.  (The CORS middleware answers preflight requests itself and adds
    headers to the other responses; it is left out.) *)

Inductive handler :=
| FastapiOpenapi          (* the framework's own schema endpoint *)
| FastapiDocs
| FastapiDocsRedirect
| FastapiRedoc
| Proxy
| Root
| HealthCheck
| GetOpenapiSchema
| OpenapiTxt.

(** A route: a path, fixed or followed by a parameter that takes the rest of
    the path, the methods it answers and its handler. *)
Record route := {
  route_path : str;
  route_takes_rest : bool;
  route_methods : list str;
  route_handler : handler
}.

Definition app_routes : list route :=
  [ {| route_path := lit "/openapi.json"; route_takes_rest := false;
       route_methods := [lit "GET"; lit "HEAD"]; route_handler := FastapiOpenapi |};
    {| route_path := lit "/docs"; route_takes_rest := false;
       route_methods := [lit "GET"; lit "HEAD"]; route_handler := FastapiDocs |};
    {| route_path := lit "/docs/oauth2-redirect"; route_takes_rest := false;
       route_methods := [lit "GET"; lit "HEAD"];
       route_handler := FastapiDocsRedirect |};
    {| route_path := lit "/redoc"; route_takes_rest := false;
       route_methods := [lit "GET"; lit "HEAD"]; route_handler := FastapiRedoc |};
    {| route_path := lit "/proxy/"; route_takes_rest := true;
       route_methods := [lit "POST"]; route_handler := Proxy |};
    {| route_path := lit "/"; route_takes_rest := false;
       route_methods := [lit "GET"]; route_handler := Root |};
    {| route_path := lit "/health"; route_takes_rest := false;
       route_methods := [lit "GET"]; route_handler := HealthCheck |};
    {| route_path := lit "/openapi.json"; route_takes_rest := false;
       route_methods := [lit "GET"]; route_handler := GetOpenapiSchema |};
    {| route_path := lit "/openapi.txt"; route_takes_rest := false;
       route_methods := [lit "GET"]; route_handler := OpenapiTxt |} ].

(** The path parameter when [path] matches the route. *)
Definition match_path (r : route) (path : str) : option str :=
  if route_takes_rest r then
    if startswith path (route_path r)
    then Some (skipn (List.length (route_path r)) path)
    else None
  else if str_eqb path (route_path r) then Some [] else None.

Inductive dispatched :=
| Handled (h : handler) (path_param : str)
| MethodNotAllowed      (* a path matched, with another method *)
| Unmatched.            (* left to the router's default *)

(** The first route that matches path and method; [partial] records that an
    earlier route matched the path alone. *)
Fixpoint dispatch (routes : list route) (method path : str) (partial : bool)
  : dispatched :=
  match routes with
  | [] => if partial then MethodNotAllowed else Unmatched
  | r :: rest =>
    match match_path r path with
    | Some path_param =>
      if existsb (str_eqb method) (route_methods r)
      then Handled (route_handler r) path_param
      else dispatch rest method path true
    | None => dispatch rest method path partial
    end
  end.

(** ** The cached text endpoint *)

(** [PlainTextResponse(content=, headers=)]: status 200 and the media type
    of the class. *)
Definition PlainTextResponse (content : str) (headers : list (str * str))
  : starlette.Response :=
  {| starlette.status_code := 200;
     starlette.media_type := Some (lit "text/plain");
     starlette.response_headers := headers;
     starlette.content := starlette.Text content |}.

(** The function under the decorators of [openapi_txt]. *)
Definition openapi_txt_wrapped (w : World) : starlette.Response :=
  let schema := app_openapi w in
  PlainTextResponse (json_dumps w (Some 2%nat) schema)
    [(lit "Content-Type", lit "text/plain; charset=utf-8")].

(** A call through [lru_cache(maxsize=1)] of a function without arguments:
    the cache holds the value of the first call once there is one, and the
    function is not called again. *)
Definition lru_cache_call {A : Type} (f : unit -> A) (cache : option A)
  : A * option A :=
  match cache with
  | Some a => (a, Some a)
  | None => let a := f tt in (a, Some a)
  end.

(** [GET /openapi.txt]: the response, and the cache after the call. *)
Definition openapi_txt (w : World) (cache : option starlette.Response)
  : starlette.Response * option starlette.Response :=
  lru_cache_call (fun _ => openapi_txt_wrapped w) cache.

(** The responses to successive calls of [openapi_txt], the environment
    being [w] at the call if [w] is at its place in [worlds]. *)
Fixpoint openapi_txt_calls (cache : option starlette.Response)
         (worlds : list World) : list starlette.Response :=
  match worlds with
  | [] => []
  | w :: rest =>
    let (response, cache') := openapi_txt w cache in
    response :: openapi_txt_calls cache' rest
  end.

(** The framework's schema endpoint: [JSONResponse(self.openapi())]. *)
Definition fastapi_openapi (w : World) : M starlette.Returned :=
  bind (lift (starlette.JSONResponse [lit "content"] (app_openapi w) []))
       (fun response => ret (starlette.Resp response)).

(** What a request gets: the run of the handler it is dispatched to, for the
    handlers embedded here. *)
Inductive answer :=
| Ran (h : handler) (run : M starlette.Returned)
| NotEmbedded (h : handler)       (* the pages of the framework and [root] *)
| Refused (d : dispatched).

Definition serve (w : World) (cache : option starlette.Response)
           (method path : str) (request : starlette.Request) : answer :=
  match dispatch app_routes method path false with
  | Handled h path_param =>
    match h with
    | FastapiOpenapi => Ran h (fastapi_openapi w)
    | Proxy =>
      Ran h (bind (proxy w path_param request)
                  (fun v => ret (starlette.Value v)))
    | HealthCheck => Ran h (health_check request)
    | GetOpenapiSchema => Ran h (get_openapi_schema w request)
    | OpenapiTxt => Ran h (ret (starlette.Resp (fst (openapi_txt w cache))))
    | FastapiDocs | FastapiDocsRedirect | FastapiRedoc | Root => NotEmbedded h
    end
  | d => Refused d
  end.

(** ** Further vocabulary *)

(** [needle] occurs in [haystack]. *)
Definition occurs_in (needle haystack : str) : Prop :=
  exists before after, haystack = before ++ needle ++ after.

(** A Unicode scalar value: a code point up to U+10FFFF that is no
    surrogate. *)
Definition scalar_value (c : N) : Prop :=
  (c < 0xD800 \/ 0xE000 <= c < 0x110000)%N.

(** What a decoding error says of the bytes decoded from position [pos]:
    the span reported lies within them, the byte reported is the one at the
    start of the span, and the bytes before the span are text. *)
Definition error_within (pos : N) (bs : bytes) (e : UTF8.decode_error) : Prop :=
  (pos <= UTF8.err_start e
   /\ UTF8.err_start e < UTF8.err_end e
   /\ UTF8.err_end e <= pos + N.of_nat (List.length bs))%N
  /\ nth_error bs (N.to_nat (UTF8.err_start e - pos)) = Some (UTF8.err_byte e)
  /\ exists s,
      UTF8.decode_from pos (firstn (N.to_nat (UTF8.err_start e - pos)) bs) = inr s.

(** [str(v)] can be written to standard output: [v] is no string, or a
    string that can be encoded. *)
Definition can_print (v : value) : bool :=
  match UTF8.encode (written_raw v) with
  | Some _ => true
  | None => false
  end.

(** The [name] of an envelope, [None] when absent. *)
Definition envelope_name (function_call : list (str * value)) : value :=
  match dict_get function_call (lit "name") with
  | Some n => n
  | None => VNone
  end.

(** The value of the [Accept] header as the handlers read it. *)
Definition accept_header (request : starlette.Request) : str :=
  starlette.headers_get request (lit "accept") [].

(** The contents of the calls. *)
Definition payloads (calls : list httpx.Request) : list str :=
  map httpx.content calls.

(** The environment [w] with [loads] for [json.loads]. *)
Definition with_json_loads (w : World) (loads : str -> exn + value) : World :=
  {| environ := environ w;
     json_loads := loads;
     json_dumps := json_dumps w;
     client_request := client_request w;
     app_openapi := app_openapi w |}.

(** * Properties *)

Arguments lit : simpl never.
Arguments print : simpl never.

(** ** The UTF-8 codec: encoding undoes decoding *)

Section UTF8_roundtrip.
Import UTF8.
Local Open Scope N_scope.

Lemma push_inr (c : N) (r : decode_error + str) (s : str) :
  push c r = inr s -> exists s', r = inr s' /\ s = c :: s'.
Proof.
  destruct r as [e | s']; simpl; intros H; [discriminate |].
  injection H as <-. eauto.
Qed.

Lemma is_continuation_range (b : N) :
  is_continuation b = true -> 0x80 <= b <= 0xBF.
Proof.
  unfold is_continuation. rewrite andb_true_iff, !N.leb_le. tauto.
Qed.

Lemma bad_second3_false (b0 b1 : N) :
  bad_second3 b0 b1 = false ->
  0x80 <= b1 <= 0xBF /\ (b0 = 0xE0 -> 0xA0 <= b1) /\ (b0 = 0xED -> b1 < 0xA0).
Proof.
  unfold bad_second3. rewrite orb_false_iff, negb_false_iff.
  intros [Hc H]. apply is_continuation_range in Hc.
  destruct (N.ltb_spec b1 0xA0); apply N.eqb_neq in H; lia.
Qed.

Lemma bad_second4_false (b0 b1 : N) :
  bad_second4 b0 b1 = false ->
  0x80 <= b1 <= 0xBF /\ (b0 = 0xF0 -> 0x90 <= b1) /\ (b0 = 0xF4 -> b1 < 0x90).
Proof.
  unfold bad_second4. rewrite orb_false_iff, negb_false_iff.
  intros [Hc H]. apply is_continuation_range in Hc.
  destruct (N.ltb_spec b1 0x90); apply N.eqb_neq in H; lia.
Qed.

Ltac utf8_ranges :=
  repeat match goal with
  | H : negb (is_continuation _) = false |- _ =>
      rewrite negb_false_iff in H; apply is_continuation_range in H
  | H : bad_second3 _ _ = false |- _ => apply bad_second3_false in H
  | H : bad_second4 _ _ = false |- _ => apply bad_second4_false in H
  | H : (_ <? _) = true |- _ => apply N.ltb_lt in H
  | H : (_ <? _) = false |- _ => apply N.ltb_ge in H
  end.

Lemma encode_char_1 (b0 : N) : b0 < 0x80 -> encode_char b0 = Some [b0].
Proof.
  intros H. unfold encode_char.
  destruct (N.ltb_spec b0 0x80); [reflexivity | lia].
Qed.

Lemma encode_char_2 (b0 b1 : N) :
  0xC2 <= b0 < 0xE0 -> 0x80 <= b1 <= 0xBF ->
  encode_char ((b0 - 0xC0) * 64 + (b1 - 0x80)) = Some [b0; b1].
Proof.
  intros H0 H1. unfold encode_char.
  set (c := (b0 - 0xC0) * 64 + (b1 - 0x80)).
  assert (Hc : 0x80 <= c < 0x800) by (unfold c; lia).
  destruct (N.ltb_spec c 0x80); [lia |].
  destruct (N.ltb_spec c 0x800); [| lia].
  assert (c / 64 = b0 - 0xC0) as -> by (unfold c; symmetry; apply N.div_unique with (b1 - 0x80); lia).
  assert (c mod 64 = b1 - 0x80) as -> by (unfold c; symmetry; apply N.mod_unique with (b0 - 0xC0); lia).
  do 2 f_equal; [lia | f_equal; lia].
Qed.

Lemma encode_char_3 (b0 b1 b2 : N) :
  0xE0 <= b0 < 0xF0 -> 0x80 <= b1 <= 0xBF -> 0x80 <= b2 <= 0xBF ->
  (b0 = 0xE0 -> 0xA0 <= b1) -> (b0 = 0xED -> b1 < 0xA0) ->
  encode_char ((b0 - 0xE0) * 4096 + (b1 - 0x80) * 64 + (b2 - 0x80))
  = Some [b0; b1; b2].
Proof.
  intros H0 H1 H2 Hlow Hsur. unfold encode_char.
  set (c := (b0 - 0xE0) * 4096 + (b1 - 0x80) * 64 + (b2 - 0x80)).
  assert (Hc : 0x800 <= c < 0x10000) by (unfold c; lia).
  assert (Hs : c < 0xD800 \/ 0xE000 <= c) by (unfold c; lia).
  destruct (N.ltb_spec c 0x80); [lia |].
  destruct (N.ltb_spec c 0x800); [lia |].
  destruct (N.ltb_spec c 0x10000); [| lia].
  replace ((0xD800 <=? c) && (c <? 0xE000)) with false
    by (symmetry; apply andb_false_iff;
        destruct Hs; [left; apply N.leb_gt | right; apply N.ltb_ge]; lia).
  assert (c / 4096 = b0 - 0xE0) as ->
    by (unfold c; symmetry;
        apply N.div_unique with ((b1 - 0x80) * 64 + (b2 - 0x80)); lia).
  assert (c / 64 = (b0 - 0xE0) * 64 + (b1 - 0x80)) as ->
    by (unfold c; symmetry; apply N.div_unique with (b2 - 0x80); lia).
  assert (((b0 - 0xE0) * 64 + (b1 - 0x80)) mod 64 = b1 - 0x80) as ->
    by (symmetry; apply N.mod_unique with (b0 - 0xE0); lia).
  assert (c mod 64 = b2 - 0x80) as ->
    by (unfold c; symmetry;
        apply N.mod_unique with ((b0 - 0xE0) * 64 + (b1 - 0x80)); lia).
  repeat (f_equal; try lia).
Qed.

Lemma encode_char_4 (b0 b1 b2 b3 : N) :
  0xF0 <= b0 < 0xF5 -> 0x80 <= b1 <= 0xBF -> 0x80 <= b2 <= 0xBF ->
  0x80 <= b3 <= 0xBF ->
  (b0 = 0xF0 -> 0x90 <= b1) -> (b0 = 0xF4 -> b1 < 0x90) ->
  encode_char ((b0 - 0xF0) * 262144 + (b1 - 0x80) * 4096 + (b2 - 0x80) * 64
               + (b3 - 0x80))
  = Some [b0; b1; b2; b3].
Proof.
  intros H0 H1 H2 H3 Hlow Hhigh. unfold encode_char.
  set (c := (b0 - 0xF0) * 262144 + (b1 - 0x80) * 4096 + (b2 - 0x80) * 64
            + (b3 - 0x80)).
  assert (Hc : 0x10000 <= c < 0x110000) by (unfold c; lia).
  destruct (N.ltb_spec c 0x80); [lia |].
  destruct (N.ltb_spec c 0x800); [lia |].
  destruct (N.ltb_spec c 0x10000); [lia |].
  destruct (N.ltb_spec c 0x110000); [| lia].
  assert (c / 262144 = b0 - 0xF0) as ->
    by (unfold c; symmetry;
        apply N.div_unique
          with ((b1 - 0x80) * 4096 + (b2 - 0x80) * 64 + (b3 - 0x80)); lia).
  assert (c / 4096 = (b0 - 0xF0) * 64 + (b1 - 0x80)) as ->
    by (unfold c; symmetry;
        apply N.div_unique with ((b2 - 0x80) * 64 + (b3 - 0x80)); lia).
  assert (((b0 - 0xF0) * 64 + (b1 - 0x80)) mod 64 = b1 - 0x80) as ->
    by (symmetry; apply N.mod_unique with (b0 - 0xF0); lia).
  assert (c / 64 = (b0 - 0xF0) * 4096 + (b1 - 0x80) * 64 + (b2 - 0x80)) as ->
    by (unfold c; symmetry; apply N.div_unique with (b3 - 0x80); lia).
  assert (((b0 - 0xF0) * 4096 + (b1 - 0x80) * 64 + (b2 - 0x80)) mod 64
          = b2 - 0x80) as ->
    by (symmetry;
        apply N.mod_unique with ((b0 - 0xF0) * 64 + (b1 - 0x80)); lia).
  assert (c mod 64 = b3 - 0x80) as ->
    by (unfold c; symmetry;
        apply N.mod_unique
          with ((b0 - 0xF0) * 4096 + (b1 - 0x80) * 64 + (b2 - 0x80)); lia).
  repeat (f_equal; try lia).
Qed.

(** Encoding undoes decoding: the text a body decodes to encodes back to
    the same bytes. *)
Lemma decode_from_encode (n : nat) :
  forall (bs : bytes) (pos : N) (s : str),
    (List.length bs <= n)%nat ->
    decode_from pos bs = inr s -> encode s = Some bs.
Proof.
  induction n as [| n IH]; intros bs pos s Hlen Hdec.
  - destruct bs; [| simpl in Hlen; lia].
    simpl in Hdec. injection Hdec as <-. reflexivity.
  - destruct bs as [| b0 r0]; [simpl in Hdec; injection Hdec as <-; reflexivity |].
    simpl in Hlen. cbn [decode_from] in Hdec.
    destruct (b0 <? 0x80) eqn:E1.
    { apply push_inr in Hdec as (s' & Hs' & ->).
      apply IH in Hs'; [| lia]. utf8_ranges.
      cbn [encode]. rewrite encode_char_1, Hs' by assumption. reflexivity. }
    destruct (b0 <? 0xC2) eqn:E2; [discriminate |].
    destruct (b0 <? 0xE0) eqn:E3.
    { destruct r0 as [| b1 r1]; [discriminate |].
      destruct (negb (is_continuation b1)) eqn:C1; [discriminate |].
      apply push_inr in Hdec as (s' & Hs' & ->).
      apply IH in Hs'; [| simpl in Hlen; lia]. utf8_ranges.
      cbn [encode]. rewrite encode_char_2, Hs' by lia. reflexivity. }
    destruct (b0 <? 0xF0) eqn:E4.
    { destruct r0 as [| b1 r1]; [discriminate |].
      destruct (bad_second3 b0 b1) eqn:C1; [discriminate |].
      destruct r1 as [| b2 r2]; [discriminate |].
      destruct (negb (is_continuation b2)) eqn:C2; [discriminate |].
      apply push_inr in Hdec as (s' & Hs' & ->).
      apply IH in Hs'; [| simpl in Hlen; lia]. utf8_ranges.
      cbn [encode]. rewrite encode_char_3, Hs' by (try tauto; lia). reflexivity. }
    destruct (b0 <? 0xF5) eqn:E5; [| discriminate].
    destruct r0 as [| b1 r1]; [discriminate |].
    destruct (bad_second4 b0 b1) eqn:C1; [discriminate |].
    destruct r1 as [| b2 r2]; [discriminate |].
    destruct (negb (is_continuation b2)) eqn:C2; [discriminate |].
    destruct r2 as [| b3 r3]; [discriminate |].
    destruct (negb (is_continuation b3)) eqn:C3; [discriminate |].
    apply push_inr in Hdec as (s' & Hs' & ->).
    apply IH in Hs'; [| simpl in Hlen; lia]. utf8_ranges.
    cbn [encode]. rewrite encode_char_4, Hs' by (try tauto; lia). reflexivity.
Qed.

Lemma decode_encode (bs : bytes) (s : str) :
  decode bs = inr s -> encode s = Some bs.
Proof.
  intros H. eapply decode_from_encode; [apply Nat.le_refl | exact H].
Qed.

End UTF8_roundtrip.

(** ** The steps of [proxy] *)

Lemma posts_app (t1 t2 : list event) : posts (t1 ++ t2) = posts t1 ++ posts t2.
Proof.
  induction t1 as [| [l | r] t1 IH]; simpl; [reflexivity | exact IH |].
  now rewrite IH.
Qed.

Lemma posts_name_warning (function_call : list (str * value)) (endpoint : str) :
  posts (name_warning function_call endpoint) = [].
Proof.
  unfold name_warning.
  destruct (truthy _ && negb _); reflexivity.
Qed.

(** A text can be written exactly when it can be encoded. *)
Lemma encode_error_from_none (s : str) :
  forall pos, UTF8.encode_error_from pos s = None <-> UTF8.encode s <> None.
Proof.
  induction s as [| c s IH]; intros pos; cbn [UTF8.encode_error_from UTF8.encode].
  - split; [discriminate | reflexivity].
  - destruct (UTF8.encode_char c) as [bs |].
    + rewrite IH. destruct (UTF8.encode s); split; congruence.
    + split; [discriminate | congruence].
Qed.

Lemma print_ok (l : line) :
  stdout_error l = None -> print l = ([Print l], inr tt).
Proof. intros H. unfold print. now rewrite H. Qed.

Lemma print_raises (l : line) (e : exn) :
  stdout_error l = Some e -> print l = ([], inl e).
Proof. intros H. unfold print. now rewrite H. Qed.

Lemma stdout_error_class (l : line) (e : exn) :
  stdout_error l = Some e -> exn_class e = UnicodeEncodeError.
Proof.
  unfold stdout_error.
  destruct (UTF8.encode_error_from _ _); [| discriminate].
  now intros [= <-].
Qed.

Lemma stdout_error_not_decode_error (l : line) (e : exn) :
  stdout_error l = Some e -> is_JSONDecodeError e = false.
Proof.
  intros H. unfold is_JSONDecodeError. now rewrite (@stdout_error_class l e H).
Qed.

Lemma can_print_true (v : value) (pos : N) :
  can_print v = true -> UTF8.encode_error_from pos (written_raw v) = None.
Proof.
  unfold can_print. intros H. apply encode_error_from_none.
  destruct (UTF8.encode (written_raw v)); [discriminate | discriminate H].
Qed.

Lemma can_print_false (v : value) (pos : N) :
  can_print v = false ->
  exists e, UTF8.encode_error_from pos (written_raw v) = Some e.
Proof.
  unfold can_print. intros H.
  destruct (UTF8.encode_error_from pos (written_raw v)) as [e |] eqn:He;
    [now exists e |].
  apply encode_error_from_none in He.
  destruct (UTF8.encode (written_raw v)); [discriminate H | now elim He].
Qed.

Lemma can_print_name (v : value) (endpoint : str) :
  can_print v = true -> stdout_error (NameMismatch v endpoint) = None.
Proof.
  intros H. unfold stdout_error. cbn [raw_part fst snd].
  now rewrite (@can_print_true v 23 H).
Qed.

Lemma can_print_response (v : value) :
  can_print v = true -> stdout_error (ServerResponse v) = None.
Proof.
  intros H. unfold stdout_error. cbn [raw_part fst snd].
  now rewrite (@can_print_true v 21 H).
Qed.

Lemma cannot_print_name (v : value) (endpoint : str) :
  can_print v = false ->
  exists e, stdout_error (NameMismatch v endpoint) = Some e.
Proof.
  intros H. unfold stdout_error. cbn [raw_part fst snd].
  destruct (@can_print_false v 23 H) as [e ->]. eauto.
Qed.

Lemma cannot_print_response (v : value) :
  can_print v = false -> exists e, stdout_error (ServerResponse v) = Some e.
Proof.
  intros H. unfold stdout_error. cbn [raw_part fst snd].
  destruct (@can_print_false v 21 H) as [e ->]. eauto.
Qed.

Lemma can_print_cases (v : value) :
  can_print v = true \/ can_print v = false.
Proof. destruct (can_print v); auto. Qed.

(** An envelope with a name that is not reported: the parameters are
    serialized. *)
Lemma forward_body_of_envelope_silent (w : World) (endpoint body_str : str)
      (entries function_call : list (str * value)) :
  json_loads w body_str = inr (VDict entries) ->
  dict_get entries (lit "function_call") = Some (VDict function_call) ->
  truthy (envelope_name function_call)
  && negb (eq_str (envelope_name function_call) endpoint) = false ->
  let forward_body := json_dumps w None (parameters_of function_call) in
  forward_body_of w endpoint body_str
  = ([Print (Forwarding forward_body)], inr forward_body).
Proof.
  intros Hloads Hcall Hquiet. unfold forward_body_of, parameters_of.
  unfold envelope_name in Hquiet.
  rewrite Hloads. cbn. rewrite Hcall. cbn.
  destruct (dict_get function_call (lit "name")) as [name |];
    destruct (dict_get function_call (lit "parameters")) as [p |]; cbn;
    try rewrite Hquiet; reflexivity.
Qed.

(** An envelope with a name that is reported: the line is written, or the
    exception of [print] ends the inner [try]. *)
Lemma forward_body_of_envelope_reported (w : World) (endpoint body_str : str)
      (entries function_call : list (str * value)) :
  json_loads w body_str = inr (VDict entries) ->
  dict_get entries (lit "function_call") = Some (VDict function_call) ->
  truthy (envelope_name function_call)
  && negb (eq_str (envelope_name function_call) endpoint) = true ->
  let forward_body := json_dumps w None (parameters_of function_call) in
  forward_body_of w endpoint body_str
  = match stdout_error (NameMismatch (envelope_name function_call) endpoint) with
    | Some e => ([], inl e)
    | None =>
      ([Print (NameMismatch (envelope_name function_call) endpoint);
        Print (Forwarding forward_body)], inr forward_body)
    end.
Proof.
  intros Hloads Hcall Hloud.
  destruct (stdout_error (NameMismatch (envelope_name function_call) endpoint))
    as [e |] eqn:Hout.
  - pose proof (@stdout_error_not_decode_error _ _ Hout) as Hclass.
    unfold forward_body_of, parameters_of. unfold envelope_name in Hloud, Hout.
    rewrite Hloads. cbn. rewrite Hcall. cbn.
    destruct (dict_get function_call (lit "name")) as [name |];
      [| discriminate Hloud].
    destruct (dict_get function_call (lit "parameters")) as [p |]; cbn;
      rewrite Hloud, (@print_raises _ _ Hout); cbn; now rewrite Hclass.
  - unfold forward_body_of, parameters_of. unfold envelope_name in *.
    rewrite Hloads. cbn. rewrite Hcall. cbn.
    destruct (dict_get function_call (lit "name")) as [name |];
      [| discriminate Hloud].
    destruct (dict_get function_call (lit "parameters")) as [p |]; cbn;
      rewrite Hloud, (@print_ok _ Hout); reflexivity.
Qed.

(** An envelope whose name can be printed: the parameters are serialized. *)
Lemma forward_body_of_envelope (w : World) (endpoint body_str : str)
      (entries function_call : list (str * value)) :
  json_loads w body_str = inr (VDict entries) ->
  dict_get entries (lit "function_call") = Some (VDict function_call) ->
  can_print (envelope_name function_call) = true ->
  let forward_body := json_dumps w None (parameters_of function_call) in
  forward_body_of w endpoint body_str
  = (name_warning function_call endpoint ++ [Print (Forwarding forward_body)],
     inr forward_body).
Proof.
  intros Hloads Hcall Hprint. cbv zeta.
  unfold name_warning. fold (envelope_name function_call).
  destruct (truthy (envelope_name function_call)
            && negb (eq_str (envelope_name function_call) endpoint)) eqn:Hc.
  - rewrite (@forward_body_of_envelope_reported w endpoint body_str _ _ Hloads Hcall Hc).
    now rewrite (@can_print_name _ endpoint Hprint).
  - exact (@forward_body_of_envelope_silent w endpoint body_str _ _ Hloads Hcall Hc).
Qed.

(** A [function_call] that is no object has no [get]. *)
Lemma forward_body_of_not_an_object (w : World) (endpoint body_str : str)
      (entries : list (str * value)) (v : value) :
  json_loads w body_str = inr (VDict entries) ->
  dict_get entries (lit "function_call") = Some v ->
  (forall function_call, v <> VDict function_call) ->
  forward_body_of w endpoint body_str
  = ([], inl (Exn AttributeError
                (lit "'" ++ type_name v ++ lit "' object has no attribute 'get'"))).
Proof.
  intros Hloads Hcall Hv. unfold forward_body_of.
  rewrite Hloads. cbn. rewrite Hcall. cbn.
  destruct v; try reflexivity.
  now elim (Hv entries0).
Qed.

(** An object without the key: the body as it came. *)
Lemma forward_body_of_no_function_call (w : World) (endpoint body_str : str)
      (entries : list (str * value)) :
  json_loads w body_str = inr (VDict entries) ->
  dict_get entries (lit "function_call") = None ->
  forward_body_of w endpoint body_str = ([Print NoFunctionCall], inr body_str).
Proof.
  intros Hloads Hcall. unfold forward_body_of.
  rewrite Hloads. cbn. rewrite Hcall. reflexivity.
Qed.

(** Text that is not JSON: the body as it came. *)
Lemma forward_body_of_invalid_json (w : World) (endpoint body_str : str) (e : exn) :
  json_loads w body_str = inl e ->
  is_JSONDecodeError e = true ->
  forward_body_of w endpoint body_str = ([Print InvalidJson], inr body_str).
Proof.
  intros Hloads He. unfold forward_body_of.
  rewrite Hloads. cbn. rewrite He. reflexivity.
Qed.

(** Choosing the body to forward calls nobody. *)
Lemma forward_body_of_posts (w : World) (endpoint body_str : str) :
  posts (events (forward_body_of w endpoint body_str)) = [].
Proof.
  unfold forward_body_of.
  destruct (json_loads w body_str) as [e | body_json]; cbn.
  - destruct (is_JSONDecodeError e); reflexivity.
  - destruct (py_in (lit "function_call") body_json) as [e | [|]]; cbn.
    + destruct (is_JSONDecodeError e); reflexivity.
    + destruct (py_getitem body_json (lit "function_call")) as [e | fc]; cbn.
      { destruct (is_JSONDecodeError e); reflexivity. }
      destruct (py_get fc (lit "name") VNone) as [e | name]; cbn.
      { destruct (is_JSONDecodeError e); reflexivity. }
      destruct (py_get fc (lit "parameters") (VDict [])) as [e | p]; cbn.
      { destruct (is_JSONDecodeError e); reflexivity. }
      destruct (truthy name && negb (eq_str name endpoint)); [| reflexivity].
      destruct (stdout_error (NameMismatch name endpoint)) as [e |] eqn:Hout.
      * rewrite (@print_raises _ _ Hout). cbn.
        now rewrite (@stdout_error_not_decode_error _ _ Hout).
      * now rewrite (@print_ok _ Hout).
    + reflexivity.
Qed.

Lemma proxy_except_eq (e : exn) :
  proxy_except e = ([Print (ErrorInProxy (exn_str e))], inr (error_result e)).
Proof. reflexivity. Qed.

Lemma proxy_decode_error (w : World) (endpoint : str)
      (request : starlette.Request) (e : exn) :
  bytes_decode (starlette.body request) = inl e ->
  proxy w endpoint request
  = ([Print (ErrorInProxy (exn_str e))], inr (error_result e)).
Proof.
  intros Hdec. unfold proxy, proxy_try. rewrite Hdec. reflexivity.
Qed.

Lemma proxy_forward_error (w : World) (endpoint : str)
      (request : starlette.Request) (body_str : str) (t : list event) (e : exn) :
  bytes_decode (starlette.body request) = inr body_str ->
  forward_body_of w endpoint body_str = (t, inl e) ->
  proxy w endpoint request
  = ([Print (ReceivedRequest endpoint); Print (RequestBody body_str)] ++ t
     ++ [Print (ErrorInProxy (exn_str e))],
     inr (error_result e)).
Proof.
  intros Hdec Hfwd. unfold proxy, proxy_try. rewrite Hdec.
  unfold print at 1 2. cbn.
  rewrite Hfwd. reflexivity.
Qed.

Lemma proxy_forward (w : World) (endpoint : str)
      (request : starlette.Request) (body_str : str) (t : list event)
      (forward_body : str) :
  bytes_decode (starlette.body request) = inr body_str ->
  forward_body_of w endpoint body_str = (t, inr forward_body) ->
  let call := forwarded w endpoint forward_body in
  proxy w endpoint request
  = ([Print (ReceivedRequest endpoint); Print (RequestBody body_str)] ++ t
     ++ events (upstream_part w call),
     outcome (upstream_part w call)).
Proof.
  intros Hdec Hfwd call. unfold proxy, proxy_try. rewrite Hdec.
  unfold print at 1 2. cbn.
  rewrite Hfwd. cbn. unfold upstream_part, client_post. cbn.
  fold (forwarded w endpoint forward_body). fold call.
  destruct (client_request w call) as [e | response]; cbn.
  - rewrite proxy_except_eq. cbn. now rewrite <- ?app_assoc.
  - destruct (relay_response response) as [tr [e | v]]; cbn;
      rewrite ?proxy_except_eq; cbn; now rewrite <- ?app_assoc.
Qed.

(** The four ways the outbound call can end. *)
Lemma upstream_part_raised (w : World) (call : httpx.Request) (e : exn) :
  client_request w call = inl e ->
  upstream_part w call
  = ([Post call; Print (ErrorInProxy (exn_str e))], inr (error_result e)).
Proof. intros H. unfold upstream_part. rewrite H. reflexivity. Qed.

Lemma upstream_part_json (w : World) (call : httpx.Request)
      (response : httpx.Response) (v : value) :
  client_request w call = inr response ->
  httpx.json response = inr v ->
  stdout_error (ServerResponse v) = None ->
  upstream_part w call = ([Post call; Print (ServerResponse v)], inr v).
Proof.
  intros H Hjson Hout. unfold upstream_part, relay_response.
  rewrite H. cbn. rewrite Hjson. cbn. now rewrite (@print_ok _ Hout).
Qed.

(** The upstream's JSON cannot be printed: the exception of [print] reaches
    the outer handler. *)
Lemma upstream_part_json_unprintable (w : World) (call : httpx.Request)
      (response : httpx.Response) (v : value) (e : exn) :
  client_request w call = inr response ->
  httpx.json response = inr v ->
  stdout_error (ServerResponse v) = Some e ->
  upstream_part w call
  = ([Post call; Print (ErrorInProxy (exn_str e))], inr (error_result e)).
Proof.
  intros H Hjson Hout. unfold upstream_part, relay_response.
  rewrite H. cbn. rewrite Hjson. cbn. rewrite (@print_raises _ _ Hout). cbn.
  now rewrite (@stdout_error_not_decode_error _ _ Hout).
Qed.

Lemma upstream_part_not_json (w : World) (call : httpx.Request)
      (response : httpx.Response) (e : exn) :
  client_request w call = inr response ->
  httpx.json response = inl e ->
  is_JSONDecodeError e = true ->
  upstream_part w call
  = ([Post call; Print (ServerResponseNotJson (httpx.text response))],
     inr (not_json_result response)).
Proof.
  intros H Hjson He. unfold upstream_part, relay_response.
  rewrite H. cbn. rewrite Hjson. cbn. rewrite He. reflexivity.
Qed.

Lemma upstream_part_json_raised (w : World) (call : httpx.Request)
      (response : httpx.Response) (e : exn) :
  client_request w call = inr response ->
  httpx.json response = inl e ->
  is_JSONDecodeError e = false ->
  upstream_part w call
  = ([Post call; Print (ErrorInProxy (exn_str e))], inr (error_result e)).
Proof.
  intros H Hjson He. unfold upstream_part, relay_response.
  rewrite H. cbn. rewrite Hjson. cbn. rewrite He. reflexivity.
Qed.

Lemma upstream_part_posts (w : World) (call : httpx.Request) :
  posts (events (upstream_part w call)) = [call].
Proof.
  destruct (client_request w call) as [e | response] eqn:H.
  - now rewrite (upstream_part_raised _ _ H).
  - destruct (httpx.json response) as [e | v] eqn:Hjson.
    + destruct (is_JSONDecodeError e) eqn:He.
      * now rewrite (upstream_part_not_json _ _ H Hjson He).
      * now rewrite (upstream_part_json_raised _ _ H Hjson He).
    + destruct (stdout_error (ServerResponse v)) as [e |] eqn:Hout.
      * now rewrite (upstream_part_json_unprintable _ _ H Hjson Hout).
      * now rewrite (upstream_part_json _ _ H Hjson Hout).
Qed.

Lemma proxy_outbound_forward (w : World) (endpoint : str)
      (request : starlette.Request) (body_str : str) (t : list event)
      (forward_body : str) :
  bytes_decode (starlette.body request) = inr body_str ->
  forward_body_of w endpoint body_str = (t, inr forward_body) ->
  outbound (proxy w endpoint request) = [forwarded w endpoint forward_body]
  /\ outcome (proxy w endpoint request)
     = outcome (upstream_part w (forwarded w endpoint forward_body)).
Proof.
  intros Hdec Hfwd. rewrite (proxy_forward _ _ _ Hdec Hfwd).
  unfold outbound, events, outcome. cbn [fst snd].
  pose proof (forward_body_of_posts w endpoint body_str) as Hp.
  rewrite Hfwd in Hp. unfold events in Hp. cbn [fst] in Hp.
  cbn [posts app]. rewrite posts_app, Hp.
  pose proof (upstream_part_posts w (forwarded w endpoint forward_body)) as Hu.
  unfold events in Hu. rewrite Hu. split; reflexivity.
Qed.

Lemma proxy_outbound_forward_error (w : World) (endpoint : str)
      (request : starlette.Request) (body_str : str) (t : list event) (e : exn) :
  bytes_decode (starlette.body request) = inr body_str ->
  forward_body_of w endpoint body_str = (t, inl e) ->
  outbound (proxy w endpoint request) = []
  /\ outcome (proxy w endpoint request) = inr (error_result e).
Proof.
  intros Hdec Hfwd. rewrite (proxy_forward_error _ _ _ Hdec Hfwd).
  unfold outbound, events, outcome. cbn [fst snd].
  pose proof (forward_body_of_posts w endpoint body_str) as Hp.
  rewrite Hfwd in Hp. unfold events in Hp. cbn [fst] in Hp.
  cbn [posts app]. rewrite posts_app, Hp. split; reflexivity.
Qed.

(** A run of [proxy] either ends before any call, with the error object of
    the exception raised, or makes the one call for the body it chose. *)
Lemma proxy_cases (w : World) (endpoint : str) (request : starlette.Request) :
  (exists e,
      outbound (proxy w endpoint request) = []
      /\ outcome (proxy w endpoint request) = inr (error_result e))
  \/ (exists forward_body,
         outbound (proxy w endpoint request) = [forwarded w endpoint forward_body]
         /\ outcome (proxy w endpoint request)
            = outcome (upstream_part w (forwarded w endpoint forward_body))).
Proof.
  destruct (bytes_decode (starlette.body request)) as [e | body_str] eqn:Hdec.
  - left. exists e. rewrite (proxy_decode_error _ _ _ Hdec). split; reflexivity.
  - destruct (forward_body_of w endpoint body_str) as [t [e | fb]] eqn:Hfwd.
    + left. exists e. exact (proxy_outbound_forward_error _ _ _ Hdec Hfwd).
    + right. exists fb. exact (proxy_outbound_forward _ _ _ Hdec Hfwd).
Qed.

(** The calls of a run: at most the one for the body chosen, and the run
    ends as that call does. *)
Lemma proxy_call_inv (w : World) (endpoint : str) (request : starlette.Request)
      (call : httpx.Request) :
  In call (outbound (proxy w endpoint request)) ->
  (exists forward_body, call = forwarded w endpoint forward_body)
  /\ outbound (proxy w endpoint request) = [call]
  /\ outcome (proxy w endpoint request) = outcome (upstream_part w call).
Proof.
  intros Hin.
  destruct (proxy_cases w endpoint request)
    as [(e & Hout & _) | (fb & Hout & Hres)]; rewrite Hout in Hin.
  - destruct Hin.
  - destruct Hin as [<- | []]. eauto.
Qed.

(** ** The forwarded payload *)

(** C1 (as amended): for every inbound request whose body parses as a JSON
    object whose ['function_call'] value is itself a JSON object, the ['name']
    of which, when it is a string, holds no lone surrogate, [proxy] makes one
    outbound call and its content is the JSON serialization of the envelope's
    ['parameters'] value, the empty mapping when ['parameters'] is absent, not
    the serialization of the whole envelope. *)
Theorem C1_envelope_forwards_parameters
        (w : World) (endpoint : str) (request : starlette.Request)
        (body_str : str) (entries function_call : list (str * value)) :
  bytes_decode (starlette.body request) = inr body_str ->
  json_loads w body_str = inr (VDict entries) ->
  dict_get entries (lit "function_call") = Some (VDict function_call) ->
  can_print (envelope_name function_call) = true ->
  outbound (proxy w endpoint request)
  = [forwarded w endpoint (json_dumps w None (parameters_of function_call))].
Proof.
  intros Hdec Hloads Hcall Hprint.
  pose proof (@forward_body_of_envelope w endpoint body_str entries function_call
                Hloads Hcall Hprint) as Hfwd.
  exact (proj1 (proxy_outbound_forward _ _ _ Hdec Hfwd)).
Qed.

(** The example of the documentation page: the envelope of [list_tables]
    with empty parameters is forwarded as the text of the empty object. *)
Lemma C1_list_tables :
  let w := ref_world (answering 200 (jlit "{'rows': []}")) in
  outbound
    (proxy w (lit "list_tables")
       (post_of_text
          (jlit "{'function_call': {'name': 'list_tables', 'parameters': {}}}")))
  = [forwarded w (lit "list_tables") (lit "{}")].
Proof.
  intros w.
  exact (@C1_envelope_forwards_parameters w (lit "list_tables")
           (post_of_text
              (jlit "{'function_call': {'name': 'list_tables', 'parameters': {}}}"))
           (jlit "{'function_call': {'name': 'list_tables', 'parameters': {}}}")
           [(lit "function_call",
             VDict [(lit "name", VStr (lit "list_tables"));
                    (lit "parameters", VDict [])])]
           [(lit "name", VStr (lit "list_tables")); (lit "parameters", VDict [])]
           eq_refl eq_refl eq_refl eq_refl).
Defined.

(** C1, as stated, fails where the value of ['function_call'] is not an
    object: the body parses as a JSON object containing the key, and nothing
    is sent upstream. *)
Lemma C1_function_call_is_a_number :
  let w := ref_world (answering 200 (jlit "{'rows': []}")) in
  let request := post_of_text (jlit "{'function_call': 1}") in
  bytes_decode (starlette.body request) = inr (jlit "{'function_call': 1}")
  /\ json_loads w (jlit "{'function_call': 1}")
     = inr (VDict [(lit "function_call", VInt 1)])
  /\ outbound (proxy w (lit "list_tables") request) = []
  /\ outbound (proxy w (lit "list_tables") request)
     <> [forwarded w (lit "list_tables") (json_dumps w None (VDict []))].
Proof.
  vm_compute. repeat split; discriminate.
Qed.

Lemma bytes_decode_encode (b : bytes) (s : str) :
  bytes_decode b = inr s -> UTF8.encode s = Some b.
Proof.
  unfold bytes_decode. destruct (UTF8.decode b) as [e | s'] eqn:H; [discriminate |].
  intros [= <-]. exact (decode_encode _ H).
Qed.

(** C2 (as amended): for every inbound body that is UTF-8 text on which
    [json.loads] raises [JSONDecodeError], the request is forwarded: one
    outbound call is made, and the body it carries equals the inbound body
    byte for byte. *)
Theorem C2_text_that_is_not_json_is_forwarded_verbatim
        (w : World) (endpoint : str) (request : starlette.Request)
        (body_str : str) (e : exn) :
  bytes_decode (starlette.body request) = inr body_str ->
  json_loads w body_str = inl e ->
  is_JSONDecodeError e = true ->
  outbound (proxy w endpoint request) = [forwarded w endpoint body_str]
  /\ httpx.wire_body (forwarded w endpoint body_str) = Some (starlette.body request).
Proof.
  intros Hdec Hloads He.
  pose proof (forward_body_of_invalid_json w endpoint body_str Hloads He) as Hfwd.
  split.
  - exact (proj1 (proxy_outbound_forward _ _ _ Hdec Hfwd)).
  - exact (bytes_decode_encode _ Hdec).
Qed.

(** The body [not json] goes upstream as it came. *)
Lemma C2_not_json :
  let w := ref_world (answering 200 (jlit "{'rows': []}")) in
  let request := post_of_text (lit "not json") in
  outbound (proxy w (lit "query") request) = [forwarded w (lit "query") (lit "not json")]
  /\ httpx.wire_body (forwarded w (lit "query") (lit "not json"))
     = Some (starlette.body request).
Proof.
  intros w request.
  exact (@C2_text_that_is_not_json_is_forwarded_verbatim w (lit "query") request
           (lit "not json") RefJson.decode_error eq_refl eq_refl eq_refl).
Defined.

(** C2, as stated, fails on a body that is not UTF-8 text: the single byte
    [0xFF] is no JSON document, and it is rejected with the error object
    instead of being forwarded. *)
Lemma C2_body_that_is_not_text :
  let w := ref_world (answering 200 (jlit "{'rows': []}")) in
  let request := post_of_bytes [0xFF%N] in
  (forall body_str v,
      bytes_decode (starlette.body request) = inr body_str ->
      json_loads w body_str <> inr v)
  /\ outbound (proxy w (lit "query") request) = []
  /\ outcome (proxy w (lit "query") request)
     = inr (error_result
              (Exn UnicodeDecodeError
                 (lit "'utf-8' codec can't decode byte 0xff in position 0: invalid start byte"))).
Proof.
  split; [| vm_compute; split; reflexivity].
  intros body_str v H. vm_compute in H. discriminate.
Qed.

(** A body that parses as a JSON object without the key ['function_call']
    goes upstream as it came. *)
Lemma object_without_function_call_is_forwarded_verbatim
      (w : World) (endpoint : str) (request : starlette.Request)
      (body_str : str) (entries : list (str * value)) :
  bytes_decode (starlette.body request) = inr body_str ->
  json_loads w body_str = inr (VDict entries) ->
  dict_get entries (lit "function_call") = None ->
  outbound (proxy w endpoint request) = [forwarded w endpoint body_str]
  /\ httpx.wire_body (forwarded w endpoint body_str) = Some (starlette.body request).
Proof.
  intros Hdec Hloads Hcall.
  pose proof (forward_body_of_no_function_call w endpoint body_str Hloads Hcall)
    as Hfwd.
  split.
  - exact (proj1 (proxy_outbound_forward _ _ _ Hdec Hfwd)).
  - exact (bytes_decode_encode _ Hdec).
Qed.

(** C3 (the code at its failing inputs): a body that parses as a JSON
    [null], boolean or number contains no ['function_call'] key, yet it is not
    forwarded: the membership test raises [TypeError], no outbound call is
    made and the error object is returned. *)
Theorem C3_scalar_body_is_not_forwarded
        (w : World) (endpoint : str) (request : starlette.Request)
        (body_str : str) (v : value) :
  bytes_decode (starlette.body request) = inr body_str ->
  json_loads w body_str = inr v ->
  is_scalar v = true ->
  outbound (proxy w endpoint request) = []
  /\ outcome (proxy w endpoint request)
     = inr (error_result
              (Exn TypeError
                 (lit "argument of type '" ++ type_name v ++ lit "' is not iterable"))).
Proof.
  intros Hdec Hloads Hv.
  apply (proxy_outbound_forward_error w endpoint request (t := []) Hdec).
  unfold forward_body_of. rewrite Hloads.
  destruct v; try discriminate; reflexivity.
Qed.

(** The body [1]. *)
Lemma C3_body_1 :
  let w := ref_world (answering 200 (jlit "{'rows': []}")) in
  let request := post_of_text (lit "1") in
  outbound (proxy w (lit "query") request) = []
  /\ outcome (proxy w (lit "query") request)
     = inr (VDict [(lit "error", VStr (lit "argument of type 'int' is not iterable"));
                   (lit "status", VInt 500)]).
Proof.
  intros w request.
  exact (@C3_scalar_body_is_not_forwarded w (lit "query") request
           (lit "1") (VInt 1) eq_refl eq_refl eq_refl).
Defined.

(** C10: for every inbound body that parses as a JSON object whose
    ['function_call'] value is not itself a JSON object, [proxy] makes no
    outbound call and returns the error object [{error: <message>, status:
    500}], the message being that of the [AttributeError] raised by [get]. *)
Theorem C10_function_call_not_an_object_is_an_error
        (w : World) (endpoint : str) (request : starlette.Request)
        (body_str : str) (entries : list (str * value)) (v : value) :
  bytes_decode (starlette.body request) = inr body_str ->
  json_loads w body_str = inr (VDict entries) ->
  dict_get entries (lit "function_call") = Some v ->
  (forall function_call, v <> VDict function_call) ->
  outbound (proxy w endpoint request) = []
  /\ outcome (proxy w endpoint request)
     = inr (VDict [(lit "error",
                    VStr (lit "'" ++ type_name v
                          ++ lit "' object has no attribute 'get'"));
                   (lit "status", VInt 500)]).
Proof.
  intros Hdec Hloads Hcall Hv.
  pose proof (forward_body_of_not_an_object w endpoint body_str Hloads Hcall Hv)
    as Hfwd.
  exact (proxy_outbound_forward_error _ _ _ Hdec Hfwd).
Qed.

(** The body [{"function_call": "x"}]. *)
Lemma C10_function_call_is_a_string :
  let w := ref_world (answering 200 (jlit "{'rows': []}")) in
  let request := post_of_text (jlit "{'function_call': 'x'}") in
  outbound (proxy w (lit "query") request) = []
  /\ outcome (proxy w (lit "query") request)
     = inr (VDict [(lit "error", VStr (lit "'str' object has no attribute 'get'"));
                   (lit "status", VInt 500)]).
Proof.
  intros w request.
  refine (@C10_function_call_not_an_object_is_an_error w (lit "query") request
            (jlit "{'function_call': 'x'}")
            [(lit "function_call", VStr (lit "x"))]
            (VStr (lit "x")) eq_refl eq_refl eq_refl _).
  intros function_call H. discriminate H.
Defined.

(** ** Failures *)

(** C4: whatever exception the body of the handler raises, while the inbound
    body is handled or in the outbound call (a timeout or a connection
    failure are exceptions of the client), [proxy] returns the object
    [{error: <message>, status: 500}], with the same constant status for
    every kind of failure, and [proxy] itself never raises. *)
Theorem C4_every_exception_becomes_the_error_object
        (w : World) (endpoint : str) (request : starlette.Request) :
  (forall e,
      outcome (proxy_try w endpoint request) = inl e ->
      outcome (proxy w endpoint request)
      = inr (VDict [(lit "error", VStr (exn_str e)); (lit "status", VInt 500)]))
  /\ (forall call e,
         In call (outbound (proxy w endpoint request)) ->
         client_request w call = inl e ->
         outcome (proxy w endpoint request)
         = inr (VDict [(lit "error", VStr (exn_str e)); (lit "status", VInt 500)]))
  /\ (exists v, outcome (proxy w endpoint request) = inr v).
Proof.
  split; [| split].
  - intros e Hraise. unfold proxy, try_except.
    destruct (proxy_try w endpoint request) as [t [e' | v]];
      cbn in Hraise; [| discriminate].
    injection Hraise as ->. reflexivity.
  - intros call e Hin Hcall.
    destruct (proxy_call_inv _ _ _ _ Hin) as (_ & _ & Hres).
    rewrite Hres, (upstream_part_raised _ _ Hcall). reflexivity.
  - unfold proxy, try_except.
    destruct (proxy_try w endpoint request) as [t [e | v]]; cbn;
      rewrite ?proxy_except_eq; cbn; eauto.
Qed.

(** The upstream cannot be reached: the caller gets the error object. *)
Lemma C4_connection_failure :
  let e := Exn (OtherError (lit "ConnectError")) (lit "All connection attempts failed") in
  let w := ref_world (failing e) in
  let request :=
    post_of_text (jlit "{'function_call': {'name': 'list_tables', 'parameters': {}}}") in
  outcome (proxy w (lit "list_tables") request)
  = inr (VDict [(lit "error", VStr (lit "All connection attempts failed"));
                (lit "status", VInt 500)]).
Proof.
  intros e w request.
  exact (proj1 (@C4_every_exception_becomes_the_error_object
                  w (lit "list_tables") request)
           e eq_refl).
Defined.




(** With names that can be printed, an envelope whose name differs from the
    endpoint is handled as the envelope of the same parameters whose name
    matches. *)
Lemma printable_name_mismatch_changes_nothing
      (w : World) (endpoint : str) (request matching : starlette.Request)
      (body_str body_str' : str)
      (entries entries' function_call function_call' : list (str * value)) :
  bytes_decode (starlette.body request) = inr body_str ->
  json_loads w body_str = inr (VDict entries) ->
  dict_get entries (lit "function_call") = Some (VDict function_call) ->
  can_print (envelope_name function_call) = true ->
  bytes_decode (starlette.body matching) = inr body_str' ->
  json_loads w body_str' = inr (VDict entries') ->
  dict_get entries' (lit "function_call") = Some (VDict function_call') ->
  can_print (envelope_name function_call') = true ->
  dict_get function_call' (lit "parameters")
  = dict_get function_call (lit "parameters") ->
  outbound (proxy w endpoint request)
  = [forwarded w endpoint (json_dumps w None (parameters_of function_call))]
  /\ outbound (proxy w endpoint request) = outbound (proxy w endpoint matching)
  /\ outcome (proxy w endpoint request) = outcome (proxy w endpoint matching).
Proof.
  intros Hdec Hloads Hcall Hp Hdec' Hloads' Hcall' Hp' Hsame.
  pose proof (@forward_body_of_envelope w endpoint body_str entries function_call
                Hloads Hcall Hp) as Hfwd.
  pose proof (@forward_body_of_envelope w endpoint body_str' entries' function_call'
                Hloads' Hcall' Hp') as Hfwd'.
  destruct (proxy_outbound_forward _ _ _ Hdec Hfwd) as [Hout Hres].
  destruct (proxy_outbound_forward _ _ _ Hdec' Hfwd') as [Hout' Hres'].
  assert (Hpar : parameters_of function_call' = parameters_of function_call)
    by (unfold parameters_of; now rewrite Hsame).
  rewrite Hpar in Hout', Hres'.
  rewrite Hout, Hout', Hres, Hres'. repeat split.
Qed.

(** ** The upstream's response *)



(** When the upstream's JSON can be printed, [proxy] returns the parsed value
    itself, whatever the status code of the response. *)
Lemma printable_upstream_json_is_returned_unchanged
      (w : World) (endpoint : str) (request : starlette.Request)
      (call : httpx.Request) (response : httpx.Response) (v : value) :
  In call (outbound (proxy w endpoint request)) ->
  client_request w call = inr response ->
  httpx.json response = inr v ->
  can_print v = true ->
  outcome (proxy w endpoint request) = inr v.
Proof.
  intros Hin Hcall Hjson Hprint.
  destruct (proxy_call_inv _ _ _ _ Hin) as (_ & _ & Hres).
  rewrite Hres,
    (upstream_part_json _ _ Hcall Hjson (@can_print_response v Hprint)).
  reflexivity.
Qed.




(** ** The outbound call *)

(** C8: every outbound call of [proxy] is a [POST] to the upstream base URL
    joined by [/] with the endpoint as it came, with the header
    [Content-Type: application/json], HTTP Basic authentication with the
    configured pair and a timeout of 30; this holds whichever body is
    forwarded, and the call is the only one of the request. *)
Theorem C8_outbound_call
        (w : World) (endpoint : str) (request : starlette.Request)
        (call : httpx.Request) :
  In call (outbound (proxy w endpoint request)) ->
  httpx.method call = lit "POST"
  /\ httpx.url call = UPSTREAM w ++ lit "/" ++ endpoint
  /\ httpx.headers call = [(lit "Content-Type", lit "application/json")]
  /\ httpx.auth call = httpx.BasicAuth (fst AUTH) (snd AUTH)
  /\ httpx.timeout call = 30%Z
  /\ outbound (proxy w endpoint request) = [call].
Proof.
  intros Hin.
  destruct (proxy_call_inv _ _ _ _ Hin) as ((fb & ->) & Hout & _).
  rewrite Hout. repeat split.
Qed.

(** The call made for a body that is not JSON, on a nested endpoint. *)
Lemma C8_passthrough_call :
  let w := ref_world (answering 200 (jlit "{'rows': []}")) in
  let request := post_of_text (lit "not json") in
  let call := forwarded w (lit "tables/list") (lit "not json") in
  httpx.method call = lit "POST"
  /\ httpx.url call = lit "http://localhost:8000/mcp/tables/list"
  /\ httpx.headers call = [(lit "Content-Type", lit "application/json")]
  /\ httpx.auth call = httpx.BasicAuth (lit "instabids") (lit "secure123password")
  /\ httpx.timeout call = 30%Z
  /\ outbound (proxy w (lit "tables/list") request) = [call].
Proof.
  intros w request call.
  exact (@C8_outbound_call w (lit "tables/list") request call (or_introl eq_refl)).
Defined.

(** ** The schema endpoint *)

(** With [text/] in [Accept], the schema is returned as indented text. *)
Lemma get_openapi_schema_text (w : World) (request : starlette.Request) :
  str_contains (lit "text/")
    (starlette.headers_get request (lit "accept") []) = true ->
  get_openapi_schema w request
  = ([], inr (starlette.Resp
                {| starlette.status_code := 200;
                   starlette.media_type := Some (lit "text/plain; charset=utf-8");
                   starlette.response_headers := [];
                   starlette.content :=
                     starlette.Text (json_dumps w (Some 2%nat) (app_openapi w)) |})).
Proof.
  intros H. unfold get_openapi_schema. rewrite H. reflexivity.
Qed.

(** On its JSON branch [get_openapi_schema] raises: [JSONResponse] does not
    declare the keyword [gzip]. *)
Lemma get_openapi_schema_json_branch_raises (w : World) (request : starlette.Request) :
  str_contains (lit "text/")
    (starlette.headers_get request (lit "accept") []) = false ->
  outcome (get_openapi_schema w request)
  = inl (Exn TypeError
           (lit "JSONResponse.__init__() got an unexpected keyword argument 'gzip'")).
Proof.
  intros H. unfold get_openapi_schema. rewrite H. reflexivity.
Qed.

Lemma dispatch_openapi_json (method path : str) :
  forall path_param,
    dispatch app_routes method path false <> Handled GetOpenapiSchema path_param.
Proof.
  intros path_param. unfold app_routes.
  cbn [dispatch match_path route_takes_rest route_path route_methods
       route_handler existsb].
  destruct (str_eqb path (lit "/openapi.json")) eqn:Hpath.
  - destruct (str_eqb method (lit "GET")) eqn:Hget; cbn [orb];
      [discriminate |].
    destruct (str_eqb method (lit "HEAD")); cbn [orb]; [discriminate |].
    repeat match goal with
           | |- context [if ?c then _ else _] => destruct c; try discriminate
           end.
  - repeat match goal with
           | |- context [if ?c then _ else _] => destruct c; try discriminate
           end.
Qed.

(** C9 (the code at its failing inputs): every [GET /openapi.json] is
    answered by the route the framework installed when the application was
    created, with the schema as a JSON response, whatever the [Accept]
    header; a request that accepts [text/] gets JSON too, not the indented
    text, and no request at all reaches [get_openapi_schema]. *)
Theorem C9_openapi_json_is_answered_by_the_framework
        (w : World) (cache : option starlette.Response)
        (request : starlette.Request) :
  serve w cache (lit "GET") (lit "/openapi.json") request
  = Ran FastapiOpenapi
        ([], inr (starlette.Resp
                    {| starlette.status_code := 200;
                       starlette.media_type := Some (lit "application/json");
                       starlette.response_headers := [];
                       starlette.content := starlette.Json (app_openapi w) |}))
  /\ forall method path run,
      serve w cache method path request <> Ran GetOpenapiSchema run.
Proof.
  split; [reflexivity |].
  intros method path run. unfold serve.
  destruct (dispatch app_routes method path false) as [h path_param | |] eqn:Hd;
    try discriminate.
  destruct h; try discriminate.
  elim (@dispatch_openapi_json method path path_param Hd).
Qed.

(** * Further properties of the handlers *)

Unset Implicit Arguments.

(** ** The substring test and the lookup *)

Lemma startswith_spec (s prefix : str) :
  startswith s prefix = true <-> exists rest, s = prefix ++ rest.
Proof.
  revert s. induction prefix as [| p prefix IH]; intros s.
  - split; [intros _; now exists s | intros _; destruct s; reflexivity].
  - destruct s as [| c s]; simpl;
      [split; [discriminate | intros [rest H]; discriminate] |].
    rewrite andb_true_iff, N.eqb_eq, IH. split.
    + intros [-> [rest ->]]. now exists rest.
    + intros [rest [= -> ->]]. split; [reflexivity | now exists rest].
Qed.

Lemma str_contains_spec (needle haystack : str) :
  str_contains needle haystack = true <-> occurs_in needle haystack.
Proof.
  unfold occurs_in. induction haystack as [| c haystack IH].
  - cbn [str_contains]. rewrite orb_false_r, startswith_spec. split.
    + intros [rest H]. exists [], rest. exact H.
    + intros (before & rest & H). destruct before; [now exists rest |].
      discriminate.
  - cbn [str_contains]. rewrite orb_true_iff, startswith_spec, IH. split.
    + intros [[rest H] | (before & rest & H)].
      * exists [], rest. exact H.
      * exists (c :: before), rest. now rewrite H.
    + intros (before & rest & H). destruct before as [| b before].
      * left. now exists rest.
      * right. injection H as _ H. now exists before, rest.
Qed.

Lemma lookup_absent (l : list (str * str)) (key default : str) :
  (forall v, ~ In (key, v) l) -> lookup l key default = default.
Proof.
  induction l as [| [k v] l IH]; intros Habsent; simpl; [reflexivity |].
  unfold str_eqb. destruct (list_eq_dec N.eq_dec k key) as [-> | _].
  - elim (Habsent v). now left.
  - apply IH. intros v' Hin. apply (Habsent v'). now right.
Qed.

(** ** [health_check] *)

(** X1: [health_check] answers 204 with an empty body and the media type
    [application/health+json] exactly when [application/health] occurs in the
    [Accept] header, anywhere in it; in every other case it returns
    [{"ok": true}].  It prints nothing and calls nobody. *)
Theorem health_check_by_accept (request : starlette.Request) :
  (occurs_in (lit "application/health") (accept_header request) ->
   health_check request
   = ([], inr (starlette.Resp
                 {| starlette.status_code := 204;
                    starlette.media_type := Some (lit "application/health+json");
                    starlette.response_headers := [];
                    starlette.content := starlette.NoContent |})))
  /\ (~ occurs_in (lit "application/health") (accept_header request) ->
      health_check request
      = ([], inr (starlette.Value (VDict [(lit "ok", VBool true)])))).
Proof.
  unfold health_check. fold (accept_header request).
  destruct (str_contains (lit "application/health") (accept_header request)) eqn:H.
  - split; [reflexivity |]. intros Hno. elim Hno. now apply str_contains_spec.
  - split; [| reflexivity]. intros Hocc. apply str_contains_spec in Hocc.
    congruence.
Qed.

(** A probe that lists the health type second. *)
Lemma health_check_probe :
  health_check
    {| starlette.headers := [(lit "accept", lit "*/*;q=0.1, application/health+json")];
       starlette.body := [] |}
  = ([], inr (starlette.Resp
                {| starlette.status_code := 204;
                   starlette.media_type := Some (lit "application/health+json");
                   starlette.response_headers := [];
                   starlette.content := starlette.NoContent |})).
Proof.
  refine (proj1 (@health_check_by_accept
                   {| starlette.headers :=
                        [(lit "accept", lit "*/*;q=0.1, application/health+json")];
                      starlette.body := [] |}) _).
  exists (lit "*/*;q=0.1, "), (lit "+json"). reflexivity.
Defined.

(** X2: a request without an [Accept] header gets [{"ok": true}] from
    [health_check]. *)
Theorem health_check_without_accept (request : starlette.Request) :
  (forall v, ~ In (lit "accept", v) (starlette.headers request)) ->
  health_check request
  = ([], inr (starlette.Value (VDict [(lit "ok", VBool true)]))).
Proof.
  intros Habsent. unfold health_check, starlette.headers_get.
  rewrite (lookup_absent _ _ _ Habsent). reflexivity.
Qed.

Lemma health_check_bare_request :
  health_check
    {| starlette.headers := [(lit "user-agent", lit "curl/8.0")];
       starlette.body := [] |}
  = ([], inr (starlette.Value (VDict [(lit "ok", VBool true)]))).
Proof.
  refine (@health_check_without_accept
            {| starlette.headers := [(lit "user-agent", lit "curl/8.0")];
               starlette.body := [] |} _).
  intros v [H | []]. vm_compute in H. discriminate H.
Defined.

(** ** The schema endpoints *)

(** X3: [get_openapi_schema] returns a response exactly when [text/] occurs
    in the [Accept] header, and the response is then the schema serialized
    with an indent of 2, as [text/plain; charset=utf-8] with status 200; with
    any other [Accept] header, or none, it raises. *)
Theorem get_openapi_schema_by_accept (w : World) (request : starlette.Request) :
  (occurs_in (lit "text/") (accept_header request) ->
   outcome (get_openapi_schema w request)
   = inr (starlette.Resp
            {| starlette.status_code := 200;
               starlette.media_type := Some (lit "text/plain; charset=utf-8");
               starlette.response_headers := [];
               starlette.content :=
                 starlette.Text (json_dumps w (Some 2%nat) (app_openapi w)) |}))
  /\ (~ occurs_in (lit "text/") (accept_header request) ->
      exists e, outcome (get_openapi_schema w request) = inl e
                /\ exn_class e = TypeError).
Proof.
  unfold get_openapi_schema. fold (accept_header request).
  destruct (str_contains (lit "text/") (accept_header request)) eqn:H.
  - split; [reflexivity |]. intros Hno. elim Hno. now apply str_contains_spec.
  - split.
    + intros Hocc. apply str_contains_spec in Hocc. congruence.
    + intros _. eexists. split; reflexivity.
Qed.

(** A browser asking for [text/html] first. *)
Lemma get_openapi_schema_browser :
  let w := ref_world (answering 200 (jlit "{'rows': []}")) in
  outcome
    (get_openapi_schema w
       {| starlette.headers := [(lit "accept", lit "text/html,application/xhtml+xml")];
          starlette.body := [] |})
  = inr (starlette.Resp
           {| starlette.status_code := 200;
              starlette.media_type := Some (lit "text/plain; charset=utf-8");
              starlette.response_headers := [];
              starlette.content :=
                starlette.Text (json_dumps w (Some 2%nat) (app_openapi w)) |}).
Proof.
  intros w.
  refine (proj1 (@get_openapi_schema_by_accept w
                   {| starlette.headers :=
                        [(lit "accept", lit "text/html,application/xhtml+xml")];
                      starlette.body := [] |}) _).
  exists [], (lit "html,application/xhtml+xml"). reflexivity.
Defined.

Lemma openapi_txt_cached (w : World) (response : starlette.Response) :
  openapi_txt w (Some response) = (response, Some response).
Proof. reflexivity. Qed.

Lemma openapi_txt_calls_cached (response : starlette.Response)
      (worlds : list World) :
  openapi_txt_calls (Some response) worlds
  = repeat response (List.length worlds).
Proof.
  induction worlds as [| w worlds IH]; simpl; [reflexivity |].
  now rewrite IH.
Qed.

(** X4: every call of [openapi_txt] after the first returns the response of
    the first call: the schema is serialized once, and a schema that changes
    later is not seen. *)
Theorem openapi_txt_serves_the_first_response (w : World) (later : list World) :
  openapi_txt_calls None (w :: later)
  = repeat (openapi_txt_wrapped w) (S (List.length later)).
Proof.
  cbn [openapi_txt_calls openapi_txt lru_cache_call].
  now rewrite openapi_txt_calls_cached.
Qed.

(** X5: the text [openapi_txt] first serves is the text [get_openapi_schema]
    returns for a request that accepts [text/]: both are the schema
    serialized with an indent of 2. *)
Theorem openapi_txt_agrees_with_get_openapi_schema
        (w : World) (request : starlette.Request) :
  occurs_in (lit "text/") (accept_header request) ->
  exists response,
    outcome (get_openapi_schema w request) = inr (starlette.Resp response)
    /\ starlette.content response = starlette.content (fst (openapi_txt w None))
    /\ starlette.status_code response
       = starlette.status_code (fst (openapi_txt w None)).
Proof.
  intros Hocc. apply str_contains_spec in Hocc.
  unfold get_openapi_schema. fold (accept_header request). rewrite Hocc.
  eexists. split; [reflexivity |]. split; reflexivity.
Qed.

Lemma openapi_txt_agrees_for_text_plain :
  let w := ref_world (answering 200 (jlit "{'rows': []}")) in
  let request :=
    {| starlette.headers := [(lit "accept", lit "text/plain")];
       starlette.body := [] |} in
  exists response,
    outcome (get_openapi_schema w request) = inr (starlette.Resp response)
    /\ starlette.content response = starlette.content (fst (openapi_txt w None))
    /\ starlette.status_code response
       = starlette.status_code (fst (openapi_txt w None)).
Proof.
  intros w request.
  refine (@openapi_txt_agrees_with_get_openapi_schema w request _).
  exists [], (lit "plain"). reflexivity.
Defined.

(** ** [proxy]: bodies that are not envelopes *)

(** Where a call of [proxy] comes from: the body was text, and a body to
    forward was chosen. *)
Lemma proxy_call_origin (w : World) (endpoint : str)
      (request : starlette.Request) (call : httpx.Request) :
  In call (outbound (proxy w endpoint request)) ->
  exists body_str t forward_body,
    bytes_decode (starlette.body request) = inr body_str
    /\ forward_body_of w endpoint body_str = (t, inr forward_body)
    /\ call = forwarded w endpoint forward_body.
Proof.
  intros Hin.
  destruct (bytes_decode (starlette.body request)) as [e | body_str] eqn:Hdec.
  - rewrite (proxy_decode_error _ _ _ Hdec) in Hin. destruct Hin.
  - destruct (forward_body_of w endpoint body_str) as [t [e | fb]] eqn:Hfwd.
    + rewrite (proj1 (proxy_outbound_forward_error _ _ _ Hdec Hfwd)) in Hin.
      destruct Hin.
    + rewrite (proj1 (proxy_outbound_forward _ _ _ Hdec Hfwd)) in Hin.
      destruct Hin as [<- | []]. now exists body_str, t, fb.
Qed.

(** The body chosen is the text as it came or the parameters of an
    envelope. *)
Lemma forward_body_of_inv (w : World) (endpoint body_str : str)
      (t : list event) (forward_body : str) :
  forward_body_of w endpoint body_str = (t, inr forward_body) ->
  forward_body = body_str
  \/ exists entries function_call,
      json_loads w body_str = inr (VDict entries)
      /\ dict_get entries (lit "function_call") = Some (VDict function_call)
      /\ forward_body = json_dumps w None (parameters_of function_call).
Proof.
  intros H.
  destruct (json_loads w body_str) as [e | body_json] eqn:Hloads.
  - unfold forward_body_of in H. rewrite Hloads in H. cbn in H.
    destruct (is_JSONDecodeError e); cbn in H; [| discriminate H].
    injection H as _ <-. now left.
  - destruct body_json as [| b | z | r | s | items | entries];
      try (unfold forward_body_of in H; rewrite Hloads in H; discriminate H).
    + unfold forward_body_of in H. rewrite Hloads in H. cbn in H.
      destruct (str_contains (lit "function_call") s); cbn in H;
        [discriminate H |].
      injection H as _ <-. now left.
    + unfold forward_body_of in H. rewrite Hloads in H. cbn in H.
      destruct (existsb (fun x => eq_str x (lit "function_call")) items);
        cbn in H; [discriminate H |].
      injection H as _ <-. now left.
    + destruct (dict_get entries (lit "function_call")) as [fc |] eqn:Hcall.
      * destruct fc as [| b | z | r | s | items | function_call];
          try (unfold forward_body_of in H; rewrite Hloads in H; cbn in H;
               rewrite Hcall in H; discriminate H).
        right. exists entries, function_call.
        split; [reflexivity |]. split; [exact Hcall |].
        destruct (truthy (envelope_name function_call)
                  && negb (eq_str (envelope_name function_call) endpoint)) eqn:Hc.
        -- rewrite (@forward_body_of_envelope_reported w endpoint body_str entries
                      function_call Hloads Hcall Hc) in H.
           destruct (stdout_error _); [discriminate H |].
           now injection H as _ <-.
        -- rewrite (@forward_body_of_envelope_silent w endpoint body_str entries
                      function_call Hloads Hcall Hc) in H.
           now injection H as _ <-.
      * rewrite (forward_body_of_no_function_call w endpoint body_str Hloads Hcall)
          in H.
        injection H as _ <-. now left.
Qed.

(** X6: a body that is not UTF-8 is rejected before anything else happens:
    the only line printed is the error, no outbound call is made, and the
    result is the error object with the decoder's message. *)
Theorem undecodable_body_is_rejected
        (w : World) (endpoint : str) (request : starlette.Request)
        (e : UTF8.decode_error) :
  UTF8.decode (starlette.body request) = inl e ->
  proxy w endpoint request
  = ([Print (ErrorInProxy (UTF8.error_text e))],
     inr (VDict [(lit "error", VStr (UTF8.error_text e)); (lit "status", VInt 500)])).
Proof.
  intros Hdec. apply (@proxy_decode_error w endpoint request
                        (Exn UnicodeDecodeError (UTF8.error_text e))).
  unfold bytes_decode. now rewrite Hdec.
Qed.

(** A body cut in the middle of a three-byte character. *)
Lemma undecodable_truncated_body :
  proxy (ref_world (answering 200 (jlit "{'rows': []}"))) (lit "query")
        (post_of_bytes [0x7B; 0xE2; 0x82]%N)
  = ([Print (ErrorInProxy
               (lit "'utf-8' codec can't decode bytes in position 1-2: unexpected end of data"))],
     inr (VDict [(lit "error",
                  VStr (lit "'utf-8' codec can't decode bytes in position 1-2: unexpected end of data"));
                 (lit "status", VInt 500)])).
Proof.
  exact (@undecodable_body_is_rejected
           (ref_world (answering 200 (jlit "{'rows': []}"))) (lit "query")
           (post_of_bytes [0x7B; 0xE2; 0x82]%N)
           (UTF8.DecodeError 1 3 0xE2 UTF8.UnexpectedEndOfData) eq_refl).
Defined.

(** X7: a body that parses as a JSON array is forwarded as it came, byte for
    byte, unless one of its items is the string ["function_call"]; then the
    subscript on the list raises [TypeError], no outbound call is made and the
    error object is returned. *)
Theorem array_body
        (w : World) (endpoint : str) (request : starlette.Request)
        (body_str : str) (items : list value) :
  bytes_decode (starlette.body request) = inr body_str ->
  json_loads w body_str = inr (VList items) ->
  (existsb (fun x => eq_str x (lit "function_call")) items = false ->
   outbound (proxy w endpoint request) = [forwarded w endpoint body_str]
   /\ httpx.wire_body (forwarded w endpoint body_str)
      = Some (starlette.body request))
  /\ (existsb (fun x => eq_str x (lit "function_call")) items = true ->
      outbound (proxy w endpoint request) = []
      /\ outcome (proxy w endpoint request)
         = inr (VDict [(lit "error",
                        VStr (lit "list indices must be integers or slices, not str"));
                       (lit "status", VInt 500)])).
Proof.
  intros Hdec Hloads. split; intros Hitems.
  - split; [| exact (bytes_decode_encode _ Hdec)].
    apply (proxy_outbound_forward w endpoint request (t := [Print NoFunctionCall]) Hdec).
    unfold forward_body_of. rewrite Hloads. cbn. now rewrite Hitems.
  - apply (proxy_outbound_forward_error w endpoint request (t := [])
             (e := Exn TypeError
                       (lit "list indices must be integers or slices, not str"))
             Hdec).
    unfold forward_body_of. rewrite Hloads. cbn. now rewrite Hitems.
Qed.

(** The array [["function_call"]]. *)
Lemma array_body_naming_function_call :
  let w := ref_world (answering 200 (jlit "{'rows': []}")) in
  let request := post_of_text (jlit "['function_call']") in
  outbound (proxy w (lit "query") request) = []
  /\ outcome (proxy w (lit "query") request)
     = inr (VDict [(lit "error",
                    VStr (lit "list indices must be integers or slices, not str"));
                   (lit "status", VInt 500)]).
Proof.
  intros w request.
  exact (proj2 (@array_body w (lit "query") request (jlit "['function_call']")
                  [VStr (lit "function_call")] eq_refl eq_refl)
           eq_refl).
Defined.

(** X8: a body that parses as a JSON string is forwarded as it came, byte for
    byte, unless [function_call] occurs in the string; then the subscript on
    the string raises [TypeError], no outbound call is made and the error
    object is returned. *)
Theorem string_body
        (w : World) (endpoint : str) (request : starlette.Request)
        (body_str s : str) :
  bytes_decode (starlette.body request) = inr body_str ->
  json_loads w body_str = inr (VStr s) ->
  (~ occurs_in (lit "function_call") s ->
   outbound (proxy w endpoint request) = [forwarded w endpoint body_str]
   /\ httpx.wire_body (forwarded w endpoint body_str)
      = Some (starlette.body request))
  /\ (occurs_in (lit "function_call") s ->
      outbound (proxy w endpoint request) = []
      /\ outcome (proxy w endpoint request)
         = inr (VDict [(lit "error",
                        VStr (lit "string indices must be integers, not 'str'"));
                       (lit "status", VInt 500)])).
Proof.
  intros Hdec Hloads. split; intros Hs.
  - split; [| exact (bytes_decode_encode _ Hdec)].
    apply (proxy_outbound_forward w endpoint request (t := [Print NoFunctionCall]) Hdec).
    unfold forward_body_of. rewrite Hloads. cbn.
    destruct (str_contains (lit "function_call") s) eqn:H; [| reflexivity].
    elim Hs. now apply str_contains_spec.
  - apply (proxy_outbound_forward_error w endpoint request (t := [])
             (e := Exn TypeError (lit "string indices must be integers, not 'str'"))
             Hdec).
    unfold forward_body_of. rewrite Hloads. cbn.
    apply str_contains_spec in Hs. now rewrite Hs.
Qed.

(** A JSON string that mentions the key. *)
Lemma string_body_mentioning_function_call :
  let w := ref_world (answering 200 (jlit "{'rows': []}")) in
  let request := post_of_text (jlit "'no function_call here'") in
  outbound (proxy w (lit "query") request) = []
  /\ outcome (proxy w (lit "query") request)
     = inr (VDict [(lit "error",
                    VStr (lit "string indices must be integers, not 'str'"));
                   (lit "status", VInt 500)]).
Proof.
  intros w request.
  refine (proj2 (@string_body w (lit "query") request
                   (jlit "'no function_call here'")
                   (lit "no function_call here") eq_refl eq_refl) _).
  exists (lit "no "), (lit " here"). reflexivity.
Defined.

(** X9: when [json.loads] raises anything but [JSONDecodeError], the body is
    not forwarded: no outbound call is made and the error object carries the
    message of the exception. *)
Theorem loads_failure_other_than_decode_error
        (w : World) (endpoint : str) (request : starlette.Request)
        (body_str : str) (e : exn) :
  bytes_decode (starlette.body request) = inr body_str ->
  json_loads w body_str = inl e ->
  is_JSONDecodeError e = false ->
  outbound (proxy w endpoint request) = []
  /\ outcome (proxy w endpoint request)
     = inr (VDict [(lit "error", VStr (exn_str e)); (lit "status", VInt 500)]).
Proof.
  intros Hdec Hloads He.
  apply (proxy_outbound_forward_error w endpoint request (t := []) (e := e) Hdec).
  unfold forward_body_of. rewrite Hloads. cbn. now rewrite He.
Qed.

(** A parser that gives up on the depth of the document. *)
Lemma loads_recursion_error :
  let e := Exn (OtherError (lit "RecursionError"))
               (lit "maximum recursion depth exceeded while decoding a JSON array from a unicode string") in
  let w := with_json_loads (ref_world (answering 200 (jlit "{'rows': []}")))
                           (fun _ => inl e) in
  let request := post_of_text (lit "[[[[") in
  outbound (proxy w (lit "query") request) = []
  /\ outcome (proxy w (lit "query") request)
     = inr (VDict [(lit "error", VStr (exn_str e)); (lit "status", VInt 500)]).
Proof.
  intros e w request.
  exact (@loads_failure_other_than_decode_error w (lit "query") request
           (lit "[[[[") e eq_refl eq_refl eq_refl).
Defined.

(** X10: when the upstream has answered and [response.json()] raises
    anything but [JSONDecodeError], the caller gets the error object with
    status 500, whatever the status of the upstream's response, and the text
    of the response is not returned. *)
Theorem response_json_failure_other_than_decode_error
        (w : World) (endpoint : str) (request : starlette.Request)
        (call : httpx.Request) (response : httpx.Response) (e : exn) :
  In call (outbound (proxy w endpoint request)) ->
  client_request w call = inr response ->
  httpx.json response = inl e ->
  is_JSONDecodeError e = false ->
  outcome (proxy w endpoint request)
  = inr (VDict [(lit "error", VStr (exn_str e)); (lit "status", VInt 500)]).
Proof.
  intros Hin Hcall Hjson He.
  destruct (proxy_call_inv _ _ _ _ Hin) as (_ & _ & Hres).
  rewrite Hres, (upstream_part_json_raised _ _ Hcall Hjson He). reflexivity.
Qed.

(** An upstream whose body cannot be decoded as text. *)
Lemma response_json_unicode_error :
  let e := Exn UnicodeDecodeError
               (lit "'utf-8' codec can't decode byte 0xff in position 0: invalid start byte") in
  let response :=
    {| httpx.status_code := 200; httpx.json := inl e; httpx.text := [0xFFFD%N] |} in
  let w := ref_world (fun _ => inr response) in
  let request := post_of_text (lit "not json") in
  outcome (proxy w (lit "query") request)
  = inr (VDict [(lit "error", VStr (exn_str e)); (lit "status", VInt 500)]).
Proof.
  intros e response w request.
  exact (@response_json_failure_other_than_decode_error w (lit "query") request
           (forwarded w (lit "query") (lit "not json")) response e
           (or_introl eq_refl) eq_refl eq_refl eq_refl).
Defined.

(** ** [proxy]: what is sent and what is returned *)

(** X11: every outbound call of [proxy] carries either the inbound body, byte
    for byte, or the serialization of the ['parameters'] of the envelope the
    body parses to, the empty mapping when the envelope has none; nothing else
    is ever sent upstream. *)
Theorem payload_is_body_or_parameters
        (w : World) (endpoint : str) (request : starlette.Request)
        (call : httpx.Request) :
  In call (outbound (proxy w endpoint request)) ->
  httpx.wire_body call = Some (starlette.body request)
  \/ exists body_str entries function_call,
      bytes_decode (starlette.body request) = inr body_str
      /\ json_loads w body_str = inr (VDict entries)
      /\ dict_get entries (lit "function_call") = Some (VDict function_call)
      /\ httpx.content call = json_dumps w None (parameters_of function_call).
Proof.
  intros Hin.
  destruct (proxy_call_origin w endpoint request call Hin)
    as (body_str & t & fb & Hdec & Hfwd & ->).
  destruct (forward_body_of_inv w endpoint body_str t fb Hfwd)
    as [-> | (entries & fc & Hloads & Hcall & ->)].
  - left. exact (bytes_decode_encode _ Hdec).
  - right. now exists body_str, entries, fc.
Qed.

(** The call made for an envelope without parameters. *)
Lemma payload_of_envelope_without_parameters :
  let w := ref_world (answering 200 (jlit "{'rows': []}")) in
  let request := post_of_text (jlit "{'function_call': {'name': 'list_tables'}}") in
  let call := forwarded w (lit "list_tables") (lit "{}") in
  httpx.wire_body call = Some (starlette.body request)
  \/ exists body_str entries function_call,
      bytes_decode (starlette.body request) = inr body_str
      /\ json_loads w body_str = inr (VDict entries)
      /\ dict_get entries (lit "function_call") = Some (VDict function_call)
      /\ httpx.content call = json_dumps w None (parameters_of function_call).
Proof.
  intros w request call.
  exact (@payload_is_body_or_parameters w (lit "list_tables") request call
           (or_introl eq_refl)).
Defined.

(** X12: [proxy] always returns one of three things: the error object
    [{error, status: 500}]; or, after exactly one outbound call that the
    upstream answered, the JSON value of the answer, or the wrapper
    [{response, status, error: null}] of an answer that is not JSON.  It
    returns nothing of its own making without having called the upstream. *)
Theorem proxy_returns_one_of_three
        (w : World) (endpoint : str) (request : starlette.Request) :
  exists v,
    outcome (proxy w endpoint request) = inr v
    /\ ((exists e, v = error_result e)
        \/ (exists call response,
               outbound (proxy w endpoint request) = [call]
               /\ client_request w call = inr response
               /\ (httpx.json response = inr v
                   \/ (exists e, httpx.json response = inl e
                                 /\ is_JSONDecodeError e = true
                                 /\ v = not_json_result response)))).
Proof.
  destruct (proxy_cases w endpoint request)
    as [(e & Hout & Hres) | (fb & Hout & Hres)].
  - exists (error_result e). split; [exact Hres |]. left. now exists e.
  - set (call := forwarded w endpoint fb) in *. rewrite Hres.
    destruct (client_request w call) as [e | response] eqn:Hcall.
    + rewrite (upstream_part_raised _ _ Hcall).
      exists (error_result e). split; [reflexivity |]. left. now exists e.
    + destruct (httpx.json response) as [e | v] eqn:Hjson.
      * destruct (is_JSONDecodeError e) eqn:He.
        -- rewrite (upstream_part_not_json _ _ Hcall Hjson He).
           exists (not_json_result response). split; [reflexivity |].
           right. exists call, response. repeat split; try assumption.
           right. now exists e.
        -- rewrite (upstream_part_json_raised _ _ Hcall Hjson He).
           exists (error_result e). split; [reflexivity |]. left. now exists e.
      * destruct (stdout_error (ServerResponse v)) as [e |] eqn:Hprint.
        -- rewrite (upstream_part_json_unprintable _ _ Hcall Hjson Hprint).
           exists (error_result e). split; [reflexivity |]. left. now exists e.
        -- rewrite (upstream_part_json _ _ Hcall Hjson Hprint).
           exists v. split; [reflexivity |].
           right. exists call, response. repeat split; try assumption. now left.
Qed.

Lemma eq_str_unprintable (name : value) (endpoint : str) :
  can_print name = false -> can_print (VStr endpoint) = true ->
  eq_str name endpoint = false.
Proof.
  intros Hname Hend. destruct name; try reflexivity.
  cbn [eq_str]. unfold str_eqb.
  destruct (list_eq_dec N.eq_dec s endpoint) as [-> | _]; [congruence | reflexivity].
Qed.

Lemma forward_body_of_outcome_endpoint (w : World) (endpoint endpoint' body_str : str) :
  can_print (VStr endpoint) = true ->
  can_print (VStr endpoint') = true ->
  outcome (forward_body_of w endpoint body_str)
  = outcome (forward_body_of w endpoint' body_str).
Proof.
  intros Hend Hend'. unfold forward_body_of.
  destruct (json_loads w body_str) as [e | body_json]; cbn.
  - destruct (is_JSONDecodeError e); reflexivity.
  - destruct (py_in (lit "function_call") body_json) as [e | [|]]; cbn.
    + destruct (is_JSONDecodeError e); reflexivity.
    + destruct (py_getitem body_json (lit "function_call")) as [e | fc]; cbn.
      { destruct (is_JSONDecodeError e); reflexivity. }
      destruct (py_get fc (lit "name") VNone) as [e | name]; cbn.
      { destruct (is_JSONDecodeError e); reflexivity. }
      destruct (py_get fc (lit "parameters") (VDict [])) as [e | p]; cbn.
      { destruct (is_JSONDecodeError e); reflexivity. }
      destruct (can_print_cases name) as [Hp | Hp].
      * rewrite (@print_ok _ (@can_print_name name endpoint Hp)).
        rewrite (@print_ok _ (@can_print_name name endpoint' Hp)).
        destruct (truthy name && negb (eq_str name endpoint));
          destruct (truthy name && negb (eq_str name endpoint')); reflexivity.
      * rewrite (@eq_str_unprintable name endpoint Hp Hend).
        rewrite (@eq_str_unprintable name endpoint' Hp Hend').
        destruct (truthy name); cbn [andb negb]; [| reflexivity].
        destruct (@cannot_print_name name endpoint Hp) as [e He].
        rewrite (@print_raises (NameMismatch name endpoint) e He).
        rewrite (@print_raises (NameMismatch name endpoint') e He).
        reflexivity.
    + reflexivity.
Qed.

Lemma proxy_payloads (w : World) (endpoint : str) (request : starlette.Request) :
  payloads (outbound (proxy w endpoint request))
  = match bytes_decode (starlette.body request) with
    | inl _ => []
    | inr body_str =>
      match outcome (forward_body_of w endpoint body_str) with
      | inl _ => []
      | inr forward_body => [forward_body]
      end
    end.
Proof.
  destruct (bytes_decode (starlette.body request)) as [e | body_str] eqn:Hdec.
  - now rewrite (proxy_decode_error _ _ _ Hdec).
  - destruct (forward_body_of w endpoint body_str) as [t [e | fb]] eqn:Hfwd.
    + now rewrite (proj1 (proxy_outbound_forward_error _ _ _ Hdec Hfwd)).
    + now rewrite (proj1 (proxy_outbound_forward _ _ _ Hdec Hfwd)).
Qed.

(** X13: the endpoint decides where a body is sent, not what is sent: for
    the same request and two endpoints as the server delivers them, free of
    surrogates, the payloads are the same, and there is a call for one exactly
    when there is a call for the other.  (The endpoints are compared with the
    name of the envelope: one that were equal to a name that cannot be
    printed would silence the warning that fails for every other.) *)
Theorem payload_does_not_depend_on_endpoint
        (w : World) (endpoint endpoint' : str) (request : starlette.Request) :
  can_print (VStr endpoint) = true ->
  can_print (VStr endpoint') = true ->
  payloads (outbound (proxy w endpoint request))
  = payloads (outbound (proxy w endpoint' request)).
Proof.
  intros Hend Hend'. rewrite !proxy_payloads.
  destruct (bytes_decode (starlette.body request)) as [e | body_str];
    [reflexivity |].
  now rewrite (@forward_body_of_outcome_endpoint w endpoint endpoint' body_str
                 Hend Hend').
Qed.

(** The same envelope sent to [query] and to [tables/list]. *)
Lemma payload_on_two_endpoints :
  let w := ref_world (answering 200 (jlit "{'rows': []}")) in
  let request :=
    post_of_text
      (jlit "{'function_call': {'name': 'query', 'parameters': {'sql': 'SELECT 1'}}}") in
  payloads (outbound (proxy w (lit "query") request))
  = payloads (outbound (proxy w (lit "tables/list") request)).
Proof.
  intros w request.
  exact (payload_does_not_depend_on_endpoint w (lit "query") (lit "tables/list")
           request eq_refl eq_refl).
Defined.




(** ** The text of a body *)

Section UTF8_text.
Import UTF8.
Local Open Scope N_scope.

Ltac Zify.zify_post_hook ::= Z.to_euclidean_division_equations.

Ltac decide_tests :=
  repeat match goal with
  | |- context [?a <? ?b] => destruct (N.ltb_spec a b); try lia
  | |- context [?a <=? ?b] => destruct (N.leb_spec a b); try lia
  | |- context [?a =? ?b] => destruct (N.eqb_spec a b); try lia
  end.

Lemma encode_char_scalar (c : N) :
  scalar_value c <-> exists bs, encode_char c = Some bs.
Proof.
  unfold scalar_value, encode_char. split.
  - intros Hsc. decide_tests; cbn; eauto.
  - intros [bs Henc]. revert Henc.
    decide_tests; cbn; intros Henc; try discriminate Henc; lia.
Qed.

Lemma decode_from_1 (pos b0 : N) (rest : bytes) :
  b0 < 0x80 ->
  decode_from pos (b0 :: rest) = push b0 (decode_from (pos + 1) rest).
Proof. intros. cbn [decode_from]. decide_tests. reflexivity. Qed.

Lemma decode_from_2 (pos b0 b1 : N) (rest : bytes) :
  0xC2 <= b0 < 0xE0 -> 0x80 <= b1 <= 0xBF ->
  decode_from pos (b0 :: b1 :: rest)
  = push ((b0 - 0xC0) * 64 + (b1 - 0x80)) (decode_from (pos + 2) rest).
Proof.
  intros. cbn [decode_from]. unfold is_continuation. decide_tests. reflexivity.
Qed.

Lemma decode_from_3 (pos b0 b1 b2 : N) (rest : bytes) :
  0xE0 <= b0 < 0xF0 -> 0x80 <= b1 <= 0xBF -> 0x80 <= b2 <= 0xBF ->
  (b0 = 0xE0 -> 0xA0 <= b1) -> (b0 = 0xED -> b1 < 0xA0) ->
  decode_from pos (b0 :: b1 :: b2 :: rest)
  = push ((b0 - 0xE0) * 4096 + (b1 - 0x80) * 64 + (b2 - 0x80))
         (decode_from (pos + 3) rest).
Proof.
  intros. cbn [decode_from]. unfold bad_second3, is_continuation.
  decide_tests; reflexivity.
Qed.

Lemma decode_from_4 (pos b0 b1 b2 b3 : N) (rest : bytes) :
  0xF0 <= b0 < 0xF5 -> 0x80 <= b1 <= 0xBF -> 0x80 <= b2 <= 0xBF ->
  0x80 <= b3 <= 0xBF ->
  (b0 = 0xF0 -> 0x90 <= b1) -> (b0 = 0xF4 -> b1 < 0x90) ->
  decode_from pos (b0 :: b1 :: b2 :: b3 :: rest)
  = push ((b0 - 0xF0) * 262144 + (b1 - 0x80) * 4096 + (b2 - 0x80) * 64
          + (b3 - 0x80))
         (decode_from (pos + 4) rest).
Proof.
  intros. cbn [decode_from]. unfold bad_second4, is_continuation.
  decide_tests; reflexivity.
Qed.

Lemma some_inj {A : Type} (a b : A) : Some a = Some b -> a = b.
Proof. congruence. Qed.

Lemma decode_from_encode_char (c : N) (bs rest : bytes) (pos : N) :
  encode_char c = Some bs ->
  decode_from pos (bs ++ rest)
  = push c (decode_from (pos + N.of_nat (List.length bs)) rest).
Proof.
  unfold encode_char.
  destruct (N.ltb_spec c 0x80) as [H1 | H1].
  { intros Hbs; apply some_inj in Hbs; subst bs. rewrite <- !app_comm_cons, app_nil_l.
    now rewrite decode_from_1 by lia. }
  destruct (N.ltb_spec c 0x800) as [H2 | H2].
  { intros Hbs; apply some_inj in Hbs; subst bs. rewrite <- !app_comm_cons, app_nil_l.
    rewrite decode_from_2 by lia. apply f_equal2; [lia | reflexivity]. }
  destruct (N.ltb_spec c 0x10000) as [H3 | H3].
  { destruct ((0xD800 <=? c) && (c <? 0xE000)) eqn:Hs; [discriminate |].
    assert (c < 0xD800 \/ 0xE000 <= c)
      by (apply andb_false_iff in Hs; destruct Hs as [Hs | Hs];
          [apply N.leb_gt in Hs | apply N.ltb_ge in Hs]; lia).
    intros Hbs; apply some_inj in Hbs; subst bs. rewrite <- !app_comm_cons, app_nil_l.
    rewrite decode_from_3 by lia. apply f_equal2; [lia | reflexivity]. }
  destruct (N.ltb_spec c 0x110000) as [H4 | H4]; [| discriminate].
  intros Hbs; apply some_inj in Hbs; subst bs. rewrite <- !app_comm_cons, app_nil_l.
  rewrite decode_from_4 by lia. apply f_equal2; [lia | reflexivity].
Qed.

Lemma encode_decode_from (s : str) :
  forall (b : bytes) (pos : N), encode s = Some b -> decode_from pos b = inr s.
Proof.
  induction s as [| c s IH]; intros b pos H; cbn [encode] in H.
  - injection H as <-. reflexivity.
  - destruct (encode_char c) as [bs |] eqn:Hc; [| discriminate].
    destruct (encode s) as [rest |] eqn:Hs; [| discriminate].
    injection H as <-.
    rewrite (decode_from_encode_char c bs rest pos Hc), (IH rest _ eq_refl).
    reflexivity.
Qed.

Lemma encode_scalar (s : str) :
  Forall scalar_value s <-> exists b, encode s = Some b.
Proof.
  induction s as [| c s IH]; cbn [encode].
  - split; [eauto | constructor].
  - split.
    + intros H. inversion H as [| ? ? Hc Hs]; subst.
      apply encode_char_scalar in Hc as [bs ->]. apply IH in Hs as [rest ->].
      eauto.
    + intros [b H].
      destruct (encode_char c) as [bs |] eqn:Hc; [| discriminate].
      destruct (encode s) as [rest |] eqn:Hs; [| discriminate].
      constructor; [apply encode_char_scalar | apply IH]; eauto.
Qed.

Lemma push_inl (c : N) (r : decode_error + str) (e : decode_error) :
  push c r = inl e -> r = inl e.
Proof. destruct r; simpl; congruence. Qed.

Ltac byte_ranges :=
  repeat match goal with
  | H : negb (is_continuation _) = false |- _ =>
      rewrite negb_false_iff in H; apply is_continuation_range in H
  | H : bad_second3 _ _ = false |- _ => apply bad_second3_false in H
  | H : bad_second4 _ _ = false |- _ => apply bad_second4_false in H
  | H : (_ <? _) = true |- _ => apply N.ltb_lt in H
  | H : (_ <? _) = false |- _ => apply N.ltb_ge in H
  end.

Lemma error_within_here (pos len b0 : N) (r0 : bytes) (why : reason) :
  0 < len <= N.of_nat (S (List.length r0)) ->
  error_within pos (b0 :: r0) (DecodeError pos (pos + len) b0 why).
Proof.
  intros H. unfold error_within. cbn [err_start err_end err_byte List.length].
  rewrite N.sub_diag. cbn [N.to_nat nth_error firstn decode_from].
  repeat split; try lia. now exists [].
Qed.

Lemma error_within_after (k : nat) (pos : N) (pre rest : bytes) (c : N)
      (e : decode_error) :
  List.length pre = k ->
  (forall tail, decode_from pos (pre ++ tail)
                = push c (decode_from (pos + N.of_nat k) tail)) ->
  error_within (pos + N.of_nat k) rest e ->
  error_within pos (pre ++ rest) e.
Proof.
  intros <- Hstep ((Hle & Hlt & Hend) & Hnth & s & Hs). unfold error_within.
  rewrite length_app.
  replace (N.to_nat (err_start e - pos))
    with (List.length pre
          + N.to_nat (err_start e - (pos + N.of_nat (List.length pre))))%nat
    by lia.
  repeat split; try lia.
  - rewrite nth_error_app2 by lia.
    replace (List.length pre + _ - List.length pre)%nat
      with (N.to_nat (err_start e - (pos + N.of_nat (List.length pre)))) by lia.
    exact Hnth.
  - rewrite firstn_app_2, Hstep, Hs. now exists (c :: s).
Qed.

Lemma decode_from_error (n : nat) :
  forall (bs : bytes) (pos : N) (e : decode_error),
    (List.length bs <= n)%nat ->
    decode_from pos bs = inl e -> error_within pos bs e.
Proof.
  induction n as [| n IH]; intros bs pos e Hlen Hdec.
  - destruct bs; [discriminate | simpl in Hlen; lia].
  - destruct bs as [| b0 r0]; [discriminate |].
    cbn [List.length] in Hlen. cbn [decode_from] in Hdec.
    destruct (b0 <? 0x80) eqn:E1.
    { apply push_inl in Hdec. byte_ranges.
      apply (error_within_after 1 pos [b0] r0 b0); [reflexivity | |].
      - intros tail. now apply decode_from_1.
      - apply IH; [lia | exact Hdec]. }
    destruct (b0 <? 0xC2) eqn:E2.
    { injection Hdec as <-. apply error_within_here. lia. }
    destruct (b0 <? 0xE0) eqn:E3.
    { destruct r0 as [| b1 r1].
      { injection Hdec as <-. apply error_within_here. cbn [List.length]. lia. }
      destruct (negb (is_continuation b1)) eqn:C1.
      { injection Hdec as <-. apply error_within_here. lia. }
      apply push_inl in Hdec. byte_ranges. cbn [List.length] in Hlen.
      apply (error_within_after 2 pos [b0; b1] r1
               ((b0 - 0xC0) * 64 + (b1 - 0x80))); [reflexivity | |].
      - intros tail. apply decode_from_2; lia.
      - apply IH; [lia | exact Hdec]. }
    destruct (b0 <? 0xF0) eqn:E4.
    { destruct r0 as [| b1 r1].
      { injection Hdec as <-. apply error_within_here. cbn [List.length]. lia. }
      destruct (bad_second3 b0 b1) eqn:C1.
      { injection Hdec as <-. apply error_within_here. lia. }
      destruct r1 as [| b2 r2].
      { injection Hdec as <-. apply error_within_here. cbn [List.length]. lia. }
      destruct (negb (is_continuation b2)) eqn:C2.
      { injection Hdec as <-. apply error_within_here. cbn [List.length]. lia. }
      apply push_inl in Hdec. byte_ranges. cbn [List.length] in Hlen.
      apply (error_within_after 3 pos [b0; b1; b2] r2
               ((b0 - 0xE0) * 4096 + (b1 - 0x80) * 64 + (b2 - 0x80)));
        [reflexivity | |].
      - intros tail. apply decode_from_3; try tauto; lia.
      - apply IH; [lia | exact Hdec]. }
    destruct (b0 <? 0xF5) eqn:E5.
    2: { injection Hdec as <-. apply error_within_here. lia. }
    destruct r0 as [| b1 r1].
    { injection Hdec as <-. apply error_within_here. cbn [List.length]. lia. }
    destruct (bad_second4 b0 b1) eqn:C1.
    { injection Hdec as <-. apply error_within_here. lia. }
    destruct r1 as [| b2 r2].
    { injection Hdec as <-. apply error_within_here. cbn [List.length]. lia. }
    destruct (negb (is_continuation b2)) eqn:C2.
    { injection Hdec as <-. apply error_within_here. cbn [List.length]. lia. }
    destruct r2 as [| b3 r3].
    { injection Hdec as <-. apply error_within_here. cbn [List.length]. lia. }
    destruct (negb (is_continuation b3)) eqn:C3.
    { injection Hdec as <-. apply error_within_here. cbn [List.length]. lia. }
    apply push_inl in Hdec. byte_ranges. cbn [List.length] in Hlen.
    apply (error_within_after 4 pos [b0; b1; b2; b3] r3
             ((b0 - 0xF0) * 262144 + (b1 - 0x80) * 4096 + (b2 - 0x80) * 64
              + (b3 - 0x80))); [reflexivity | |].
    + intros tail. apply decode_from_4; try tauto; lia.
    + apply IH; [lia | exact Hdec].
Qed.

End UTF8_text.

Lemma encode_bytes_decode (b : bytes) (s : str) :
  UTF8.encode s = Some b -> bytes_decode b = inr s.
Proof.
  intros H. unfold bytes_decode, UTF8.decode.
  now rewrite (encode_decode_from s b 0 H).
Qed.

(** X15: a body is read as the text [s] exactly when it is the UTF-8
    encoding of [s]: the decoding [proxy] applies to the inbound body and the
    encoding the client applies to the content it is given undo each other,
    in both directions. *)
Theorem body_text_correspondence (b : bytes) (s : str) :
  bytes_decode b = inr s <-> UTF8.encode s = Some b.
Proof.
  split; [apply bytes_decode_encode | apply encode_bytes_decode].
Qed.

(** X16: the texts [proxy] can read from a body are exactly the sequences of
    Unicode scalar values: a decoded body holds no surrogate and nothing above
    U+10FFFF, and every such text is the reading of one body. *)
Theorem body_text_is_scalar_values (s : str) :
  (exists b, bytes_decode b = inr s) <-> Forall scalar_value s.
Proof.
  rewrite encode_scalar. split; intros [b H]; exists b;
    [now apply bytes_decode_encode | now apply encode_bytes_decode].
Qed.

(** X17: a body of ASCII bytes is read as itself, code point for byte. *)
Theorem ascii_body_reads_as_itself (b : bytes) :
  Forall (fun c => c < 0x80)%N b -> bytes_decode b = inr b.
Proof.
  intros H. apply encode_bytes_decode.
  induction H as [| c b Hc _ IH]; [reflexivity |].
  cbn [UTF8.encode]. rewrite IH. unfold UTF8.encode_char.
  destruct (N.ltb_spec c 0x80) as [_ | F]; [reflexivity |].
  exfalso. apply (proj1 (N.le_ngt _ _) F Hc).
Qed.

Lemma ascii_body_example :
  bytes_decode [0x7B; 0x7D]%N = inr [0x7B; 0x7D]%N.
Proof.
  refine (ascii_body_reads_as_itself [0x7B; 0x7D]%N _).
  repeat constructor.
Defined.

(** X18: when a body is not UTF-8, the error reported points into the body:
    the span it names is not empty and ends within the body, the byte it names
    is the byte at the start of the span, and the bytes before the span are
    valid text. *)
Theorem decoding_error_points_into_the_body (b : bytes) (e : UTF8.decode_error) :
  UTF8.decode b = inl e ->
  (UTF8.err_start e < UTF8.err_end e <= N.of_nat (List.length b))%N
  /\ nth_error b (N.to_nat (UTF8.err_start e)) = Some (UTF8.err_byte e)
  /\ exists s, bytes_decode (firstn (N.to_nat (UTF8.err_start e)) b) = inr s.
Proof.
  intros H.
  destruct (decode_from_error (List.length b) b 0 e (Nat.le_refl _) H)
    as ((_ & Hlt & Hend) & Hnth & s & Hs).
  rewrite N.sub_0_r in Hnth, Hs. rewrite N.add_0_l in Hend.
  repeat split; try assumption.
  exists s. unfold bytes_decode, UTF8.decode. now rewrite Hs.
Qed.

Lemma decoding_error_of_truncated_body :
  let b := [0x7B; 0xE2; 0x82]%N in
  let e := UTF8.DecodeError 1 3 0xE2 UTF8.UnexpectedEndOfData in
  (UTF8.err_start e < UTF8.err_end e <= N.of_nat (List.length b))%N
  /\ nth_error b (N.to_nat (UTF8.err_start e)) = Some (UTF8.err_byte e)
  /\ exists s, bytes_decode (firstn (N.to_nat (UTF8.err_start e)) b) = inr s.
Proof.
  intros b e.
  exact (decoding_error_points_into_the_body b e eq_refl).
Defined.

(** ** [proxy]: objects that are not envelopes, and the base URL *)

(** X19: a body that parses as a JSON object without the key
    ['function_call'] at its top level is forwarded as it came: one outbound
    call carries the inbound body byte for byte, and the line saying that no
    function call was found is printed. *)
Theorem object_without_the_key_passes_through
        (w : World) (endpoint : str) (request : starlette.Request)
        (body_str : str) (entries : list (str * value)) :
  bytes_decode (starlette.body request) = inr body_str ->
  json_loads w body_str = inr (VDict entries) ->
  dict_get entries (lit "function_call") = None ->
  outbound (proxy w endpoint request) = [forwarded w endpoint body_str]
  /\ httpx.wire_body (forwarded w endpoint body_str) = Some (starlette.body request)
  /\ In (Print NoFunctionCall) (events (proxy w endpoint request)).
Proof.
  intros Hdec Hloads Hcall.
  pose proof (forward_body_of_no_function_call w endpoint body_str Hloads Hcall)
    as Hfwd.
  split; [exact (proj1 (proxy_outbound_forward _ _ _ Hdec Hfwd)) |].
  split; [exact (bytes_decode_encode _ Hdec) |].
  rewrite (proxy_forward _ _ _ Hdec Hfwd). unfold events at 1. cbn [fst].
  rewrite !in_app_iff. right. left. now left.
Qed.

(** The object [{"sql": "SELECT 1"}] sent without an envelope. *)
Lemma bare_parameters_pass_through :
  let w := ref_world (answering 200 (jlit "{'rows': []}")) in
  let request := post_of_text (jlit "{'sql': 'SELECT 1'}") in
  outbound (proxy w (lit "query") request)
  = [forwarded w (lit "query") (jlit "{'sql': 'SELECT 1'}")]
  /\ httpx.wire_body (forwarded w (lit "query") (jlit "{'sql': 'SELECT 1'}"))
     = Some (starlette.body request)
  /\ In (Print NoFunctionCall) (events (proxy w (lit "query") request)).
Proof.
  intros w request.
  exact (object_without_the_key_passes_through
           w (lit "query") request (jlit "{'sql': 'SELECT 1'}")
           [(lit "sql", VStr (lit "SELECT 1"))] eq_refl eq_refl eq_refl).
Defined.

Lemma lookup_first (before after : list (str * str)) (key v default : str) :
  (forall v', ~ In (key, v') before) ->
  lookup (before ++ (key, v) :: after) key default = v.
Proof.
  induction before as [| [k x] before IH]; intros Habsent; simpl.
  - unfold str_eqb. now destruct (list_eq_dec N.eq_dec key key).
  - unfold str_eqb. destruct (list_eq_dec N.eq_dec k key) as [-> | _].
    + elim (Habsent x). now left.
    + apply IH. intros v' Hin. apply (Habsent v'). now right.
Qed.

(** X20: the upstream every call goes to is the value of [UPSTREAM_URL] in
    the process environment when the variable is set, and
    [http://localhost:8000/mcp] when it is not; the endpoint follows after a
    [/]. *)
Theorem upstream_from_environment
        (w : World) (endpoint : str) (request : starlette.Request)
        (call : httpx.Request) :
  In call (outbound (proxy w endpoint request)) ->
  (forall before after u,
      environ w = before ++ (lit "UPSTREAM_URL", u) :: after ->
      (forall v, ~ In (lit "UPSTREAM_URL", v) before) ->
      httpx.url call = u ++ lit "/" ++ endpoint)
  /\ ((forall v, ~ In (lit "UPSTREAM_URL", v) (environ w)) ->
      httpx.url call = lit "http://localhost:8000/mcp" ++ lit "/" ++ endpoint).
Proof.
  intros Hin.
  destruct (proxy_call_origin w endpoint request call Hin)
    as (body_str & t & fb & _ & _ & ->).
  cbn [forwarded httpx.url]. unfold UPSTREAM, os_getenv. split.
  - intros before after u Henv Habsent. rewrite Henv.
    now rewrite (lookup_first before after _ u _ Habsent).
  - intros Habsent. now rewrite (lookup_absent _ _ _ Habsent).
Qed.

(** The relay started with [UPSTREAM_URL] set. *)
Lemma upstream_from_environment_set :
  let w :=
    {| environ := [(lit "PORT", lit "8080");
                   (lit "UPSTREAM_URL", lit "https://mcp.example/mcp")];
       json_loads := RefJson.loads;
       json_dumps := RefJson.dumps;
       client_request := answering 200 (jlit "{'rows': []}");
       app_openapi := VDict [] |} in
  let call := forwarded w (lit "query") (lit "not json") in
  httpx.url call = lit "https://mcp.example/mcp/query".
Proof.
  intros w call.
  refine (proj1 (upstream_from_environment w (lit "query")
                   (post_of_text (lit "not json")) call (or_introl eq_refl))
            [(lit "PORT", lit "8080")] [] (lit "https://mcp.example/mcp")
            eq_refl _).
  intros v [H | []]. vm_compute in H. discriminate H.
Defined.
